(** * minGPT (JAX port): an embedding of the addition dataset, the GPT forward
    pass, the masked loss, the learning-rate schedule, the trainer and the
    sampler. *)

From Stdlib Require Import List Arith PeanoNat Lia ZArith Bool.
From Stdlib Require Import String Ascii Permutation.
From Stdlib Require Import Reals Lra.
Import ListNotations.

(* ------------------------------------------------------------------------- *)
(** ** AdditionDataset (play_math notebook, cell 6) *)

Module Addition.

(** Decimal digits of [n], most significant first; [digits 0 = [0]]
    (what Python's [%d] prints). *)
Fixpoint digits_fuel (fuel n : nat) : list nat :=
  match fuel with
  | 0 => []
  | S f => if n <? 10 then [n] else digits_fuel f (n / 10) ++ [n mod 10]
  end.

Definition digits (n : nat) : list nat := digits_fuel (S n) n.

Definition char_of_digit (d : nat) : ascii := ascii_of_nat (48 + d).

(** Python's [('%0' + str w + 'd') % n] for [n >= 0]: the decimal digits
    left-padded with '0' up to width [w] (never truncated). *)
Definition fmt_zpad (w n : nat) : string :=
  let ds := digits n in
  string_of_list_ascii (map char_of_digit (repeat 0 (w - List.length ds) ++ ds)).

(** [int(s)] on a one-character digit string. *)
Definition int_of_char (c : ascii) : Z := Z.of_nat (nat_of_ascii c) - 48.

(** [y[:stop] = v] on a list of length [len y], with Python's negative
    slice bound. *)
Definition set_prefix (stop : Z) (v : Z) (y : list Z) : list Z :=
  let len := Z.of_nat (List.length y) in
  let s := if (stop <? 0)%Z then Z.max 0 (stop + len) else Z.min stop len in
  repeat v (Z.to_nat s) ++ skipn (Z.to_nat s) y.

(** [y[:, ...] = -100]: the ignore marker of the targets. *)
Definition mask_value : Z := (-100)%Z.

Record dataset := mkDataset {
  split : string;
  ndigit : nat;
  vocab_size : nat;
  block_size : nat;
  ixes : list nat
}.

(** A stand-in for [np.random.RandomState(seed).permutation(num)]: any list
    that is a permutation of [0 .. num-1]. *)
Definition permutation_ok (perm : nat -> nat -> list nat) : Prop :=
  forall seed num, Permutation (perm seed num) (seq 0 num).

(** [AdditionDataset.__init__].  [int(num*0.2)] is [num / 5] for the
    [num = 100^ndigit] used here. *)
Definition init (perm : nat -> nat -> list nat) (nd : nat) (sp : string)
  : dataset :=
  let num := (10 ^ nd) ^ 2 in
  let p := perm 1337 num in
  let num_test := Nat.min (num / 5) 1000 in
  mkDataset sp nd 10 (nd + nd + nd + 1 - 1)
    (if String.eqb sp "test" then firstn num_test p else skipn num_test p).

Definition len (ds : dataset) : nat := List.length (ixes ds).

(** The digit string of problem [idx] of an [ndigit]-digit dataset. *)
Definition render (nd idx : nat) : string :=
  let n := 10 ^ nd in
  let a := idx / n in
  let b := idx mod n in
  let c := a + b in
  (fmt_zpad nd a ++ fmt_zpad nd b ++ fmt_zpad (nd + 1) c)%string.

Definition dix_of (nd idx : nat) : list Z :=
  map int_of_char (list_ascii_of_string (render nd idx)).

(** The body of [__getitem__] after [idx = self.ixes[idx]]. *)
Definition item (nd idx : nat) : list Z * list Z :=
  let dix := dix_of nd idx in
  let x := removelast dix in
  let y := tl dix in
  let y := set_prefix (Z.of_nat nd * 2 - 1) mask_value y in
  (x, y).

(** [__getitem__]; [None] is Python's IndexError. *)
Definition getitem (ds : dataset) (i : nat) : option (list Z * list Z) :=
  match nth_error (ixes ds) i with
  | Some idx => Some (item (ndigit ds) idx)
  | None => None
  end.

(** Big-endian decoding of a digit list. *)
Definition decode (ds : list Z) : Z := fold_left (fun acc d => 10 * acc + d)%Z ds 0%Z.

(** Reading aids for the proofs: the value of a digit list, and the digit
    list that [fmt_zpad] prints. *)
Definition natval (ds : list nat) : nat := fold_left (fun acc d => 10 * acc + d) ds 0.

Definition padded (w n : nat) : list nat := repeat 0 (w - List.length (digits n)) ++ digits n.

End Addition.

(* ------------------------------------------------------------------------- *)
(** ** [give_exam] of the addition notebook

    [nd] is the notebook's global [ndigit] (the function reads the global,
    not the dataset's field).  [samp] is the batched call
    [sample(params, model, gpt_config, x, steps=ndigit+1)] on one prompt row,
    at the trained parameters.  The arrays are jnp int32; for [ndigit <= 8]
    every value computed here is below 2^31, and the model computes in Z. *)

Module Exam.
Import Addition.

(** [jnp.array([[10**i for i in range(ndigit+1)][::-1]])]. *)
Definition factors (nd : nat) : list Z :=
  rev (map (fun i => 10 ^ Z.of_nat i)%Z (seq 0 (nd + 1))).

(** [(u * f).sum(1)] on one row, [u] and [f] of the same length. *)
Definition wsum (u f : list Z) : Z :=
  fold_right Z.add 0%Z (map (fun '(a, b) => (a * b)%Z) (combine u f)).

(** [r[-n:]] on one row. *)
Definition last_n (n : nat) (r : list Z) : list Z := skipn (List.length r - n) r.

(** [correct] for a prompt row [d1d2 = x[:ndigit*2]] and its sampled row. *)
Definition exam_correct (nd : nat) (d1d2 d1d2d3 : list Z) : bool :=
  let d3 := last_n (nd + 1) d1d2d3 in
  let f := factors nd in
  let d1i := wsum (firstn nd d1d2) (tl f) in
  let d2i := wsum (firstn (nd * 2 - nd) (skipn nd d1d2)) (tl f) in
  let d3i_pred := wsum d3 f in
  let d3i_gt := (d1i + d2i)%Z in
  Z.eqb d3i_pred d3i_gt.

(** [int(correct[i])] for one item [(x, y)] of a batch. *)
Definition exam_row (samp : list Z -> list Z) (nd : nat) (xy : list Z * list Z) : nat :=
  let d1d2 := firstn (nd * 2) (fst xy) in
  if exam_correct nd d1d2 (samp d1d2) then 1 else 0.

(** [DataLoader(dataset, batch_size)]: consecutive batches of [bs] items,
    the last one possibly shorter (no shuffling, no drop_last). *)
Fixpoint chunks_fuel {A} (fuel bs : nat) (l : list A) : list (list A) :=
  match fuel with
  | 0 => []
  | S f => match l with [] => [] | _ => firstn bs l :: chunks_fuel f bs (skipn bs l) end
  end.

Definition loader {A} (bs : nat) (l : list A) : list (list A) := chunks_fuel (List.length l) bs l.

(** The items [dataset[0], dataset[1], ...] the loader reads. *)
Definition items (ds : dataset) : list (list Z * list Z) :=
  flat_map (fun i => match getitem ds i with Some it => [it] | None => [] end) (seq 0 (len ds)).

(** [for b, (x, y) in enumerate(loader): ... results.append(...);
    if max_batches >= 0 and b+1 >= max_batches: break]. *)
Fixpoint exam_loop (samp : list Z -> list Z) (nd : nat) (max_batches : Z) (b : nat)
  (batches : list (list (list Z * list Z))) : list nat :=
  match batches with
  | [] => []
  | bt :: rest =>
      map (exam_row samp nd) bt ++
      (if (0 <=? max_batches)%Z && (max_batches <=? Z.of_nat (b + 1))%Z then []
       else exam_loop samp nd max_batches (S b) rest)
  end.

(** [give_exam(dataset, batch_size, max_batches)]: the list [results]; the
    body first sets [batch_size=1024] and [max_batches=10]. *)
Definition give_exam (samp : list Z -> list Z) (nd : nat) (ds : dataset)
  (batch_size max_batches : Z) : list nat :=
  let batch_size := 1024%Z in
  let max_batches := 10%Z in
  exam_loop samp nd max_batches 0 (loader (Z.to_nat batch_size) (items ds)).

End Exam.

(* ------------------------------------------------------------------------- *)
(** ** The GPT model ([mingpt/model.py])

    [mingpt/model.py] is imported by the notebooks but is not part of the
    sources at hand; everything in this module is modelled from the spec
    (sections 3, 4.1 to 4.4 and 7).  Floats are modelled by real numbers. *)

Module GPT.
Local Open Scope R_scope.

Definition vec := list R.
Definition mat := list vec.

Fixpoint zipw {A B C} (f : A -> B -> C) (l1 : list A) (l2 : list B) : list C :=
  match l1, l2 with
  | a :: l1', b :: l2' => f a b :: zipw f l1' l2'
  | _, _ => []
  end.

Definition vsum (v : vec) : R := fold_right Rplus 0 v.
Definition dot (u v : vec) : R := vsum (zipw Rmult u v).
Definition vadd (u v : vec) : vec := zipw Rplus u v.
(** [W @ x] for a weight matrix stored as its list of output rows. *)
Definition matvec (W : mat) (x : vec) : vec := map (fun row => dot row x) W.

(** [sum_{j in js} f j]. *)
Definition rsum (f : nat -> R) (js : list nat) : R := fold_right (fun j acc => f j + acc) 0 js.

(** Attention scores live in the reals extended with the mask value -inf. *)
Inductive xreal := Fin (r : R) | NegInf.
Definition xexp (s : xreal) : R := match s with Fin r => exp r | NegInf => 0 end.

(** ModelConfig (spec, section 3).  The dropout rates only act in training
    mode; the forward pass below is the evaluation-mode one. *)
Record GPTConfig := mkConfig {
  vocab_size : nat;
  block_size : nat;
  n_layer : nat;
  n_head : nat;
  n_embd : nat;
  embd_pdrop : R;
  resid_pdrop : R;
  attn_pdrop : R
}.

Record LayerNorm := mkLN { ln_scale : vec; ln_offset : vec }.
Record Head := mkHead { wq : mat; wk : mat; wv : mat }.
Record Block := mkBlock {
  ln1 : LayerNorm; heads : list Head; wo : mat;
  ln2 : LayerNorm; fc1 : mat; fc2 : mat
}.
(** Parameters (spec, section 3). *)
Record Params := mkParams {
  wte : mat; wpe : mat; blocks : list Block; ln_f : LayerNorm; lm_head : mat
}.

Inductive error := ConfigError | IndexError.
Inductive result (A : Type) := Ok (a : A) | Err (e : error).
Arguments Ok {A} a.
Arguments Err {A} e.

Definition bind {A B} (m : result A) (k : A -> result B) : result B :=
  match m with Ok a => k a | Err e => Err e end.
Notation "x <- m ;; k" := (bind m (fun x => k)) (at level 61, m at next level, right associativity).

Fixpoint mapR {A B} (f : A -> result B) (l : list A) : result (list B) :=
  match l with
  | [] => Ok []
  | a :: l' => b <- f a ;; bs <- mapR f l' ;; Ok (b :: bs)
  end.

Definition ln_eps : R := / 100000.

Definition layer_norm (ln : LayerNorm) (x : vec) : vec :=
  let n := INR (List.length x) in
  let mu := vsum x / n in
  let var := vsum (map (fun xc => (xc - mu) * (xc - mu)) x) / n in
  vadd (zipw Rmult (map (fun xc => (xc - mu) / sqrt (var + ln_eps)) x) (ln_scale ln))
       (ln_offset ln).

(** The tanh form of GELU, with [tanh z = (e^(2z) - 1) / (e^(2z) + 1)]. *)
Definition gelu (x : R) : R :=
  let z := sqrt (2 / PI) * (x + 0.044715 * (x * x * x)) in
  0.5 * x * (1 + (exp (2 * z) - 1) / (exp (2 * z) + 1)).

Definition att_scale (cfg : GPTConfig) : R := / sqrt (INR (n_embd cfg / n_head cfg)).

(** Causal score of query position [i] against key position [j]: the
    strictly upper triangular part ([j > i]) is set to -inf. *)
Definition att_score (cfg : GPTConfig) (h : Head) (xs : list vec) (i j : nat) : xreal :=
  if j <=? i
  then Fin (dot (matvec (wq h) (nth i xs [])) (matvec (wk h) (nth j xs [])) * att_scale cfg)
  else NegInf.

(** Softmax of row [i] of the scores over all [T] key positions. *)
Definition att_weight (cfg : GPTConfig) (h : Head) (xs : list vec) (i j : nat) : R :=
  xexp (att_score cfg h xs i j)
  / rsum (fun j' => xexp (att_score cfg h xs i j')) (seq 0 (List.length xs)).

(** Output of one head at position [i]: the weighted sum of the values. *)
Definition head_out (cfg : GPTConfig) (h : Head) (xs : list vec) (i : nat) : vec :=
  map (fun c => rsum (fun j => att_weight cfg h xs i j * nth c (matvec (wv h) (nth j xs [])) 0)
                     (seq 0 (List.length xs)))
      (seq 0 (List.length (wv h))).

(** CausalSelfAttention: heads concatenated, then projected back. *)
Definition self_attention (cfg : GPTConfig) (hs : list Head) (w : mat) (xs : list vec)
  : list vec :=
  map (fun i => matvec w (List.concat (map (fun h => head_out cfg h xs i) hs)))
      (seq 0 (List.length xs)).

Definition mlp (b : Block) (x : vec) : vec := matvec (fc2 b) (map gelu (matvec (fc1 b) x)).

(** TransformerBlock: pre-normalization, two residual sub-layers. *)
Definition block_fwd (cfg : GPTConfig) (b : Block) (xs : list vec) : list vec :=
  let xs1 := zipw vadd xs (self_attention cfg (heads b) (wo b) (map (layer_norm (ln1 b)) xs)) in
  zipw vadd xs1 (map (fun x => mlp b (layer_norm (ln2 b) x)) xs1).

Definition zeros (n : nat) : vec := repeat 0 n.

(** Token embedding plus learned position embedding for positions 0..T-1. *)
Definition embed (cfg : GPTConfig) (p : Params) (toks : list nat) : list vec :=
  map (fun t => vadd (nth (nth t toks 0%nat) (wte p) (zeros (n_embd cfg)))
                     (nth t (wpe p) (zeros (n_embd cfg))))
      (seq 0 (List.length toks)).

(** TransformerStack + LanguageModelHead on one sequence. *)
Definition gpt (cfg : GPTConfig) (p : Params) (toks : list nat) : result (list vec) :=
  if (block_size cfg <? List.length toks)%nat then Err ConfigError
  else
    let hs := fold_left (fun xs b => block_fwd cfg b xs) (blocks p) (embed cfg p toks) in
    Ok (map (fun x => matvec (lm_head p) (layer_norm (ln_f p) x)) hs).

(** A (batch, T) array of token ids. *)
Record tokens2 := mkTokens { t_len : nat; t_rows : list (list nat) }.

Definition rectangular (x : tokens2) : Prop := forall r, In r (t_rows x) -> List.length r = t_len x.

Definition gpt_batch (cfg : GPTConfig) (p : Params) (x : tokens2) : result (list (list vec)) :=
  if (block_size cfg <? t_len x)%nat then Err ConfigError else mapR (gpt cfg p) (t_rows x).

(** Logits at position [i] of one sequence ([None] if there is none). *)
Definition logits_at (cfg : GPTConfig) (p : Params) (toks : list nat) (i : nat) : option vec :=
  match gpt cfg p toks with Ok ls => nth_error ls i | Err _ => None end.

(** [x[j] = v]. *)
Fixpoint list_set {A} (l : list A) (j : nat) (v : A) : list A :=
  match l, j with
  | [], _ => []
  | _ :: l', 0%nat => v :: l'
  | a :: l', S j' => a :: list_set l' j' v
  end.

End GPT.

(* ------------------------------------------------------------------------- *)
(** ** LossFunction (spec, section 4.4; [loss_fn] of [mingpt/model.py])

    Modelled from the spec: [loss_fn] is not in the sources at hand. *)

Module Loss.
Import GPT.
Local Open Scope R_scope.

(** The exclude sentinel of the targets (the datasets use -100). *)
Definition ignore_index : Z := (-100)%Z.

Definition excluded (y : Z) : bool := Z.eqb y ignore_index.

Definition cross_entropy (lg : vec) (t : nat) : R := ln (vsum (map exp lg)) - nth t lg 0.

(** (batch, T, vocab) logits and (batch, T) targets, flattened to positions. *)
Definition positions (lgs : list (list vec)) (ys : list (list Z)) : list (vec * Z) :=
  List.concat (zipw (fun ls yr => zipw pair ls yr) lgs ys).

(** Masked mean: excluded positions get mask 0 (their target replaced by the
    valid id 0 before indexing); the sum is divided by the number of
    supervised positions, and a batch without any is defined to have loss 0. *)
Definition loss_of_logits (lgs : list (list vec)) (ys : list (list Z)) : R :=
  let ps := positions lgs ys in
  let mask := map (fun py => if excluded (snd py) then 0 else 1) ps in
  let ces := map (fun py => cross_entropy (fst py)
                              (if excluded (snd py) then 0%nat else Z.to_nat (snd py))) ps in
  let num := vsum (zipw Rmult mask ces) in
  let den := List.length (filter (fun py => negb (excluded (snd py))) ps) in
  if (den =? 0)%nat then 0 else num / INR den.

Definition loss_fn (cfg : GPTConfig) (p : Params) (x : tokens2) (ys : list (list Z)) : result R :=
  lgs <- gpt_batch cfg p x ;; Ok (loss_of_logits lgs ys).

(** The spec's words, for comparison: the mean of the cross-entropies of
    exactly the positions whose target is not the sentinel, 0 for none. *)
Definition mean (l : list R) : R :=
  match l with [] => 0 | _ => vsum l / INR (List.length l) end.

Definition supervised_ce (lgs : list (list vec)) (ys : list (list Z)) : list R :=
  map (fun py => cross_entropy (fst py) (Z.to_nat (snd py)))
      (filter (fun py => negb (excluded (snd py))) (positions lgs ys)).

End Loss.

(* ------------------------------------------------------------------------- *)
(** ** TrainConfig and LearningRateSchedule (spec, sections 3 and 4.5)

    Modelled from the spec: [mingpt/trainer.py] is not in the sources at
    hand; [TrainerConfig] has the fields the notebooks pass to it. *)

Module Schedule.
Local Open Scope R_scope.

Record TrainerConfig := mkTrainerConfig {
  max_epochs : nat;
  batch_size : nat;
  learning_rate : R;
  grad_norm_clip : R;
  lr_decay : bool;
  warmup_tokens : nat;
  final_tokens : nat;
  num_workers : nat;
  rng_seed : nat;
  step_tokens : nat
}.

(** Linear warmup to the base rate; from [warmup_tokens] on, the base rate
    times the cosine multiplier [0.5 * (1 + cos (pi * progress))] floored at
    10% (the form of the rates logged by the addition notebook, with
    768 tokens per step); from [final_tokens] on, 10% for good. *)
Definition lr_at (tokens : nat) (tc : TrainerConfig) : R :=
  let base := learning_rate tc in
  if negb (lr_decay tc) then base
  else if (tokens <? warmup_tokens tc)%nat then base * (INR tokens / INR (warmup_tokens tc))
  else if (final_tokens tc <=? tokens)%nat then base * / 10
  else
    let progress := INR (tokens - warmup_tokens tc) / INR (final_tokens tc - warmup_tokens tc) in
    base * Rmax (/ 10) ((1 + cos (PI * progress)) / 2).

End Schedule.

(* ------------------------------------------------------------------------- *)
(** ** init_params (spec, section 4.6)

    Modelled from the spec: [init_params] draws every parameter from a seeded
    random source; [draw seed k] is the [k]-th number of the stream of
    [seed].  The counter is threaded through a small state monad. *)

Module Init.
Import GPT.
Local Open Scope R_scope.

Definition Rand (A : Type) : Type := nat -> A * nat.
Definition rret {A} (a : A) : Rand A := fun c => (a, c).
Definition rbind {A B} (m : Rand A) (k : A -> Rand B) : Rand B :=
  fun c => let '(a, c') := m c in k a c'.
Notation "x <<- m ;; k" := (rbind m (fun x => k)) (at level 61, m at next level, right associativity).

Section WithSource.
Variable draw : nat -> nat -> R.
Variable seed : nat.

Definition rnum : Rand R := fun c => (0.02 * draw seed c, S c).

Fixpoint rvec (n : nat) : Rand vec :=
  match n with
  | 0%nat => rret []
  | S n' => x <<- rnum ;; xs <<- rvec n' ;; rret (x :: xs)
  end.

Fixpoint rmat (rows cols : nat) : Rand mat :=
  match rows with
  | 0%nat => rret []
  | S r => v <<- rvec cols ;; m <<- rmat r cols ;; rret (v :: m)
  end.

Fixpoint rlist {A} (n : nat) (m : Rand A) : Rand (list A) :=
  match n with
  | 0%nat => rret []
  | S n' => a <<- m ;; l <<- rlist n' m ;; rret (a :: l)
  end.

Definition ln_init (d : nat) : LayerNorm := mkLN (repeat 1 d) (repeat 0 d).

Definition rhead (cfg : GPTConfig) : Rand Head :=
  let d := n_embd cfg in
  let hd := (n_embd cfg / n_head cfg)%nat in
  q <<- rmat hd d ;; k <<- rmat hd d ;; v <<- rmat hd d ;; rret (mkHead q k v).

Definition rblock (cfg : GPTConfig) : Rand Block :=
  let d := n_embd cfg in
  hs <<- rlist (n_head cfg) (rhead cfg) ;; w <<- rmat d d ;;
  f1 <<- rmat (4 * d) d ;; f2 <<- rmat d (4 * d) ;;
  rret (mkBlock (ln_init d) hs w (ln_init d) f1 f2).

Definition rparams (cfg : GPTConfig) : Rand Params :=
  let d := n_embd cfg in
  te <<- rmat (vocab_size cfg) d ;; pe <<- rmat (block_size cfg) d ;;
  bs <<- rlist (n_layer cfg) (rblock cfg) ;; hd <<- rmat (vocab_size cfg) d ;;
  rret (mkParams te pe bs (ln_init d) hd).

End WithSource.

Definition init_params (draw : nat -> nat -> R) (cfg : GPTConfig) (seed : nat) : Params :=
  fst (rparams draw seed cfg 0%nat).

End Init.

(* ------------------------------------------------------------------------- *)
(** ** Trainer (spec, section 4.6)

    Modelled from the spec: [mingpt/trainer.py] is not in the sources at
    hand.  The gradient of the loss, the global-norm clipping and the update
    rule (optax) are the optimizer's; they are parameters of the model. *)

Module Trainer.
Import GPT Loss Schedule.
Local Open Scope R_scope.

(** Per-parameter accumulators of the update rule. *)
Record OptState := mkOpt { opt_mu : Params; opt_nu : Params; opt_count : nat }.

Record TrainState := mkState {
  params : Params;
  opt_state : OptState;
  tokens : nat;
  epoch : nat;
  train_loss : R;
  test_loss : option R
}.

Definition batch : Type := tokens2 * list (list Z).

Section WithOptimizer.
Variable cfg : GPTConfig.
Variable tc : TrainerConfig.
Variable grad : Params -> batch -> Params.
Variable clip : R -> Params -> Params.
Variable update : R -> Params -> OptState -> Params -> Params * OptState.

(** ForwardBackward then OptimizerUpdate on one batch.  The token counter
    grows by the caller's per-step multiplier: [batch_size * step_tokens]
    per step (768 in the addition notebook's log, also on the short last
    batch of an epoch). *)
Definition train_step (s : TrainState) (b : batch) : result TrainState :=
  l <- loss_fn cfg (params s) (fst b) (snd b) ;;
  let g := clip (grad_norm_clip tc) (grad (params s) b) in
  let lr := lr_at (tokens s) tc in
  let '(p', o') := update lr g (opt_state s) (params s) in
  Ok (mkState p' o' (tokens s + batch_size tc * step_tokens tc) (epoch s) l (test_loss s)).

Fixpoint run_batches (s : TrainState) (bs : list batch) : result TrainState :=
  match bs with
  | [] => Ok s
  | b :: bs' => s' <- train_step s b ;; run_batches s' bs'
  end.

(** Mean loss over a held-out dataset, no update. *)
Definition eval_loss (p : Params) (data : list batch) : result R :=
  ls <- mapR (fun b => loss_fn cfg p (fst b) (snd b)) data ;; Ok (mean ls).

Definition eval_epoch (s : TrainState) (data : list batch) : result TrainState :=
  l <- eval_loss (params s) data ;;
  Ok (mkState (params s) (opt_state s) (tokens s) (epoch s) (train_loss s) (Some l)).

Definition end_epoch (s : TrainState) : TrainState :=
  mkState (params s) (opt_state s) (tokens s) (S (epoch s)) (train_loss s) (test_loss s).

(** One epoch: all batches in the epoch's order, then the held-out loss. *)
Definition run_epoch (s : TrainState) (train : list batch) (test : option (list batch))
  : result TrainState :=
  s1 <- run_batches s train ;;
  s2 <- match test with None => Ok s1 | Some d => eval_epoch s1 d end ;;
  Ok (end_epoch s2).

(** [train]: [loader e] is the shuffled batch order of epoch [e]. *)
Fixpoint train_epochs (n : nat) (loader : nat -> list batch) (test : option (list batch))
  (s : TrainState) : result TrainState :=
  match n with
  | 0%nat => Ok s
  | S n' => s' <- run_epoch s (loader (epoch s)) test ;; train_epochs n' loader test s'
  end.

(** The trainer as a state machine. *)
Inductive event := EvUpdate (b : batch) | EvEval (d : list batch) | EvEpochEnd.

Inductive tstep : TrainState -> event -> TrainState -> Prop :=
| TUpdate s b s' : train_step s b = Ok s' -> tstep s (EvUpdate b) s'
| TEval s d s' : eval_epoch s d = Ok s' -> tstep s (EvEval d) s'
| TEpochEnd s : tstep s EvEpochEnd (end_epoch s).

Inductive tsteps : TrainState -> list event -> TrainState -> Prop :=
| TNil s : tsteps s [] s
| TCons s e s1 evs s2 : tstep s e s1 -> tsteps s1 evs s2 -> tsteps s (e :: evs) s2.

Definition is_update (e : event) : bool := match e with EvUpdate _ => true | _ => false end.

End WithOptimizer.

End Trainer.

(* ------------------------------------------------------------------------- *)
(** ** Sampler (spec, section 4.7; [sample] of [mingpt/utils.py])

    Modelled from the spec: [mingpt/utils.py] is not in the sources at hand.
    Stochastic mode reads one uniform number in [0, 1) per step from the
    random-state sequence [rng] and inverts the cumulative distribution.
    Ties are broken towards the lower token id, both by the top-k filter and
    by the argmax. *)

Module Sampler.
Import GPT.
Local Open Scope R_scope.

Inductive mode := Greedy | Stochastic.

(** [x if len(x) <= block_size else x[-block_size:]]. *)
Definition crop (bs : nat) (ctx : list nat) : list nat :=
  if (List.length ctx <=? bs)%nat then ctx else skipn (List.length ctx - bs) ctx.

Fixpoint last_opt {A} (l : list A) : option A :=
  match l with [] => None | [a] => Some a | _ :: l' => last_opt l' end.

(** Token [i] is ranked before token [j]. *)
Definition beats (l : list R) (i j : nat) : bool :=
  if Rlt_dec (nth j l 0) (nth i l 0) then true
  else if Req_EM_T (nth i l 0) (nth j l 0) then (i <? j)%nat else false.

Definition rank (l : list R) (j : nat) : nat :=
  List.length (filter (fun i => beats l i j) (seq 0 (List.length l))).

(** Keep the [k] highest-scoring logits, set the others to -inf. *)
Definition top_k_mask (k : nat) (l : list R) : list xreal :=
  map (fun j => if (rank l j <? k)%nat then Fin (nth j l 0) else NegInf) (seq 0 (List.length l)).

Definition softmax (s : list xreal) : list R :=
  let z := vsum (map xexp s) in map (fun e => xexp e / z) s.

Fixpoint argmax_from (l : list R) (j best : nat) (bv : R) : nat :=
  match l with
  | [] => best
  | v :: l' => if Rlt_dec bv v then argmax_from l' (S j) j v else argmax_from l' (S j) best bv
  end.

(** First index of a maximal entry. *)
Definition argmax (l : list R) : nat :=
  match l with [] => 0%nat | v :: l' => argmax_from l' 1 0 v end.

(** Reading aid: [m] is the first index of a maximal entry of [l]. *)
Definition first_max (l : list R) (m : nat) : Prop :=
  (m < List.length l)%nat /\
  (forall j, (j < List.length l)%nat -> nth j l 0 <= nth m l 0) /\
  (forall j, (j < m)%nat -> nth j l 0 < nth m l 0).

(** Least [j] whose cumulative probability exceeds [u]. *)
Fixpoint inv_cdf (u acc : R) (j : nat) (ps : list R) : nat :=
  match ps with
  | [] => Nat.pred j
  | q :: ps' => if Rlt_dec u (acc + q) then j else inv_cdf u (acc + q) (S j) ps'
  end.

(** One sampling step on the current sequence [ctx]. *)
Definition next_token (cfg : GPTConfig) (p : Params) (temperature : R) (top_k : option nat)
  (md : mode) (u : R) (ctx : list nat) : result nat :=
  let ctx' := crop (block_size cfg) ctx in
  lgs <- gpt cfg p ctx' ;;
  match last_opt lgs with
  | None => Err IndexError
  | Some lg =>
      let lg := map (fun v => v / temperature) lg in
      let s := match top_k with None => map Fin lg | Some k => top_k_mask k lg end in
      let probs := softmax s in
      Ok (match md with Greedy => argmax probs | Stochastic => inv_cdf u 0 0 probs end)
  end.

Fixpoint sample_from (cfg : GPTConfig) (p : Params) (temperature : R) (top_k : option nat)
  (md : mode) (rng : nat -> R) (steps k : nat) (ctx : list nat) : result (list nat) :=
  match steps with
  | 0%nat => Ok ctx
  | S n =>
      t <- next_token cfg p temperature top_k md (rng k) ctx ;;
      sample_from cfg p temperature top_k md rng n (S k) (ctx ++ [t])
  end.

(** [sample(params, model, config, x, steps, temperature, sample, top_k)]. *)
Definition sample (p : Params) (cfg : GPTConfig) (x : list nat) (steps : nat)
  (temperature : R) (md : mode) (top_k : option nat) (rng : nat -> R) : result (list nat) :=
  sample_from cfg p temperature top_k md rng steps 0 x.

End Sampler.

(* ------------------------------------------------------------------------- *)
(** ** Concrete inputs used by the examples below *)

Module Examples.
Import GPT.

(** A tiny configuration: 3 tokens, context 4, one layer, one head, width 2. *)
Definition cfg0 : GPTConfig := mkConfig 3 4 1 1 2 0 0 0.

Definition draw0 (seed k : nat) : R := INR ((seed + 3 * k) mod 7).

Definition p0 : Params := Init.init_params draw0 cfg0 42.

(** A (2, 2) batch of token ids, and targets with one supervised position. *)
Definition x1 : tokens2 := mkTokens 2 [[0; 1]; [2; 2]].

Definition ys1 : list (list Z) := [[-100; -100]; [-100; 2]]%Z.

(** The identity order of the dataset's indices. *)
Definition id_perm : nat -> nat -> list nat := fun _ num => seq 0 num.

(** A trainer configuration in the notebook's style, with small token counts. *)
Definition tc_ex : Schedule.TrainerConfig :=
  Schedule.mkTrainerConfig 2 4 (6 / 10000)%R 1%R true 4 10 0 0 3.

(** A toy optimizer: the gradient is the parameters themselves, no clipping,
    and the update takes a gradient step on the token embedding only. *)
Definition grad0 (p : Params) (_ : Trainer.batch) : Params := p.

Definition clip0 (_ : R) (g : Params) : Params := g.

Definition update0 (lr : R) (g : Params) (o : Trainer.OptState) (p : Params)
  : Params * Trainer.OptState :=
  (mkParams (map (map (fun w => w - lr * w)%R) (wte p)) (wpe p) (blocks p) (ln_f p) (lm_head p),
   Trainer.mkOpt (Trainer.opt_mu o) (Trainer.opt_nu o) (S (Trainer.opt_count o))).

Definition s0 : Trainer.TrainState :=
  Trainer.mkState p0 (Trainer.mkOpt p0 p0 0) 0 0 0%R None.

(** An exam sampler that appends the zero-padded digits of the sum of the
    prompt's two [nd]-digit operands. *)
Definition answer_sampler (nd : nat) (d1d2 : list Z) : list Z :=
  d1d2 ++ map Z.of_nat (Addition.padded (nd + 1)
             (Z.to_nat (Addition.decode (firstn nd d1d2)) +
              Z.to_nat (Addition.decode (skipn nd d1d2)))).

End Examples.

(* ------------------------------------------------------------------------- *)
(** ** Causality of a map on sequences *)

Module Causality.

(** A sequence map is causal when its output at [i] only depends on the
    inputs at [0..i]. *)
Definition causal {A B} (f : list A -> list B) : Prop :=
  forall xs ys i, List.length xs = List.length ys ->
    (forall k, k <= i -> nth_error xs k = nth_error ys k) ->
    nth_error (f xs) i = nth_error (f ys) i.

Definition len_pres {A B} (f : list A -> list B) : Prop :=
  forall xs, List.length (f xs) = List.length xs.

End Causality.

(* ------------------------------------------------------------------------- *)
(** ** Lemmas on the digit rendering *)

Module AdditionFacts.
Import Addition.

Lemma digits_fuel_spec (fuel n : nat) :
  n < fuel ->
  Forall (fun d => d < 10) (digits_fuel fuel n) /\
  natval (digits_fuel fuel n) = n /\
  (forall w, 1 <= w -> n < 10 ^ w -> List.length (digits_fuel fuel n) <= w).
Proof.
  revert n; induction fuel as [|f IH]; intros n Hn; [lia|].
  cbn [digits_fuel]. destruct (Nat.ltb_spec n 10) as [Hlt|Hge].
  - split; [constructor; [lia|constructor]|]. split; [reflexivity|].
    intros w Hw _; simpl; lia.
  - assert (Hd : n / 10 < f).
    { assert (n / 10 < n) by (apply Nat.div_lt; lia). lia. }
    destruct (IH (n / 10) Hd) as (HF & Hv & Hl).
    split; [|split].
    + apply Forall_app; split; [exact HF|].
      constructor; [apply Nat.mod_upper_bound; lia|constructor].
    + unfold natval in *. rewrite fold_left_app. cbn [fold_left]. rewrite Hv.
      pose proof (Nat.div_mod n 10). lia.
    + intros w Hw Hnw. rewrite length_app. cbn [List.length].
      destruct w as [|w']; [lia|].
      destruct w' as [|w'']; [simpl in Hnw; lia|].
      assert (n / 10 < 10 ^ S w'').
      { apply Nat.Div0.div_lt_upper_bound. rewrite <- Nat.pow_succ_r'. exact Hnw. }
      specialize (Hl (S w'') ltac:(lia) H). lia.
Qed.

Lemma digits_lt10 (n : nat) : Forall (fun d => d < 10) (digits n).
Proof. apply (digits_fuel_spec (S n) n); lia. Qed.

Lemma digits_natval (n : nat) : natval (digits n) = n.
Proof. apply (digits_fuel_spec (S n) n); lia. Qed.

Lemma digits_length (n w : nat) : 1 <= w -> n < 10 ^ w -> List.length (digits n) <= w.
Proof. intros; apply (digits_fuel_spec (S n) n); lia. Qed.

Lemma natval_zeros (k : nat) (ds : list nat) : natval (repeat 0 k ++ ds) = natval ds.
Proof.
  unfold natval. rewrite fold_left_app.
  assert (fold_left (fun acc d => 10 * acc + d) (repeat 0 k) 0 = 0) as ->.
  { induction k as [|k IH]; simpl; [reflexivity|]. exact IH. }
  reflexivity.
Qed.

Lemma padded_lt10 (w n : nat) : Forall (fun d => d < 10) (padded w n).
Proof.
  unfold padded. apply Forall_app; split; [|apply digits_lt10].
  apply Forall_forall; intros d Hd. apply repeat_spec in Hd. lia.
Qed.

Lemma padded_natval (w n : nat) : natval (padded w n) = n.
Proof. unfold padded. rewrite natval_zeros. apply digits_natval. Qed.

Lemma padded_length (w n : nat) : 1 <= w -> n < 10 ^ w -> List.length (padded w n) = w.
Proof.
  intros Hw Hn. unfold padded. rewrite length_app, repeat_length.
  pose proof (digits_length n w Hw Hn). lia.
Qed.

Lemma list_ascii_of_string_app (s1 s2 : string) :
  list_ascii_of_string (s1 ++ s2) = list_ascii_of_string s1 ++ list_ascii_of_string s2.
Proof. induction s1 as [|c s1 IH]; simpl; [reflexivity|]. now rewrite IH. Qed.

Lemma int_of_char_digit (d : nat) : d < 10 -> int_of_char (char_of_digit d) = Z.of_nat d.
Proof.
  intros Hd. unfold int_of_char, char_of_digit.
  rewrite nat_ascii_embedding by lia. lia.
Qed.

Lemma fmt_zpad_tokens (w n : nat) :
  map int_of_char (list_ascii_of_string (fmt_zpad w n)) = map Z.of_nat (padded w n).
Proof.
  unfold fmt_zpad. rewrite list_ascii_of_string_of_list_ascii, map_map.
  fold (padded w n). apply map_ext_in. intros d Hd.
  apply int_of_char_digit. pose proof (padded_lt10 w n) as HF.
  rewrite Forall_forall in HF. now apply HF.
Qed.

Lemma dix_of_eq (nd idx : nat) :
  dix_of nd idx =
  map Z.of_nat (padded nd (idx / 10 ^ nd)) ++ map Z.of_nat (padded nd (idx mod 10 ^ nd))
  ++ map Z.of_nat (padded (nd + 1) (idx / 10 ^ nd + idx mod 10 ^ nd)).
Proof.
  unfold dix_of, render. rewrite !list_ascii_of_string_app, !map_app, !fmt_zpad_tokens.
  reflexivity.
Qed.

Lemma decode_natval (ds : list nat) : decode (map Z.of_nat ds) = Z.of_nat (natval ds).
Proof.
  unfold decode, natval.
  assert (forall acc, fold_left (fun acc d => 10 * acc + d)%Z (map Z.of_nat ds) (Z.of_nat acc)
                      = Z.of_nat (fold_left (fun acc d => 10 * acc + d) ds acc)) as H.
  { induction ds as [|d ds IH]; intros acc; cbn [fold_left map]; [reflexivity|].
    replace (10 * Z.of_nat acc + Z.of_nat d)%Z with (Z.of_nat (10 * acc + d)) by lia.
    apply IH. }
  apply (H 0).
Qed.

Lemma dix_of_digits (nd idx : nat) : Forall (fun v => (0 <= v < 10)%Z) (dix_of nd idx).
Proof.
  rewrite dix_of_eq. rewrite <- !map_app, Forall_map.
  pose proof (padded_lt10 nd (idx / 10 ^ nd)).
  pose proof (padded_lt10 nd (idx mod 10 ^ nd)).
  pose proof (padded_lt10 (nd + 1) (idx / 10 ^ nd + idx mod 10 ^ nd)).
  rewrite Forall_forall in *. intros v Hv.
  repeat rewrite in_app_iff in Hv.
  destruct Hv as [Hv|[Hv|Hv]]; [apply H in Hv|apply H0 in Hv|apply H1 in Hv]; lia.
Qed.

Lemma Forall_removelast {A} (P : A -> Prop) (l : list A) : Forall P l -> Forall P (removelast l).
Proof.
  induction l as [|a l IH]; intros H; [constructor|].
  inversion H; subst. destruct l as [|b l]; [constructor|].
  simpl. constructor; [assumption|]. apply IH; assumption.
Qed.

Lemma Forall_tl {A} (P : A -> Prop) (l : list A) : Forall P l -> Forall P (tl l).
Proof. intros H; inversion H; subst; simpl; [constructor|assumption]. Qed.

Lemma Forall_skipn {A} (P : A -> Prop) (n : nat) (l : list A) : Forall P l -> Forall P (skipn n l).
Proof.
  revert l; induction n as [|n IH]; intros l H; [exact H|].
  destruct l as [|a l]; [constructor|]. inversion H; subst. simpl. apply IH; assumption.
Qed.

Lemma getitem_some (perm : nat -> nat -> list nat) (nd : nat) (sp : string) (i : nat) x y :
  getitem (init perm nd sp) i = Some (x, y) ->
  exists p, In p (ixes (init perm nd sp)) /\ item nd p = (x, y).
Proof.
  unfold getitem. destruct (nth_error _ i) as [p|] eqn:E; [|discriminate].
  intros H. exists p. split; [eapply nth_error_In; eassumption|].
  simpl in H. congruence.
Qed.

Lemma ixes_bound (perm : nat -> nat -> list nat) (nd : nat) (sp : string) (p : nat) :
  permutation_ok perm -> In p (ixes (init perm nd sp)) -> p < (10 ^ nd) ^ 2.
Proof.
  intros Hperm Hin. unfold init in Hin; simpl in Hin.
  assert (Hp : In p (perm 1337 ((10 ^ nd) ^ 2))).
  { rewrite <- (firstn_skipn (Nat.min ((10 ^ nd) ^ 2 / 5) 1000)).
    apply in_or_app. destruct (String.eqb sp "test"); [left|right]; exact Hin. }
  eapply Permutation_in in Hp; [|apply Hperm].
  apply in_seq in Hp. lia.
Qed.

Lemma last_app_nonempty {A} (l l' : list A) (d : A) : l' <> [] -> last (l ++ l') d = last l' d.
Proof.
  intros H. induction l as [|a l IH]; [reflexivity|].
  rewrite <- app_comm_cons. simpl. rewrite IH.
  destruct (l ++ l') eqn:E; [apply app_eq_nil in E; tauto|reflexivity].
Qed.

Lemma nth_prefix_masked (m k : nat) (v : Z) (l : list Z) :
  m <= List.length l ->
  nth k (repeat v m ++ skipn m l) 0%Z = if k <? m then v else nth k l 0%Z.
Proof.
  intros Hm. destruct (Nat.ltb_spec k m).
  - rewrite app_nth1 by (rewrite repeat_length; lia). apply nth_repeat_lt; lia.
  - rewrite app_nth2 by (rewrite repeat_length; lia). rewrite repeat_length, nth_skipn.
    f_equal. lia.
Qed.

(** The three digit fields of problem [p] of an [nd]-digit dataset. *)
Lemma item_fields (nd p : nat) :
  1 <= nd -> p < (10 ^ nd) ^ 2 ->
  let da := map Z.of_nat (padded nd (p / 10 ^ nd)) in
  let db := map Z.of_nat (padded nd (p mod 10 ^ nd)) in
  let dc := map Z.of_nat (padded (nd + 1) (p / 10 ^ nd + p mod 10 ^ nd)) in
  dix_of nd p = da ++ db ++ dc /\
  List.length da = nd /\ List.length db = nd /\ List.length dc = nd + 1.
Proof.
  intros Hnd Hp da db dc. rewrite dix_of_eq.
  assert (Hpos : 10 ^ nd <> 0) by (apply Nat.pow_nonzero; lia).
  assert (Ha : p / 10 ^ nd < 10 ^ nd).
  { apply Nat.Div0.div_lt_upper_bound. rewrite Nat.pow_2_r in Hp. exact Hp. }
  assert (Hb : p mod 10 ^ nd < 10 ^ nd) by (apply Nat.mod_upper_bound; exact Hpos).
  assert (Hc : p / 10 ^ nd + p mod 10 ^ nd < 10 ^ (nd + 1)).
  { rewrite Nat.pow_add_r. simpl. lia. }
  split; [reflexivity|].
  unfold da, db, dc. rewrite !length_map.
  rewrite !padded_length by (assumption || lia). lia.
Qed.

End AdditionFacts.

(* ------------------------------------------------------------------------- *)
(** ** The addition dataset: claims *)

Module AdditionClaims.
Import Addition AdditionFacts Examples.

Lemma id_perm_ok : permutation_ok id_perm.
Proof. intros seed num. apply Permutation_refl. Qed.

Lemma item_digits (nd p : nat) :
  Forall (fun v => (0 <= v < 10)%Z) (fst (item nd p)) /\
  Forall (fun v => v = mask_value \/ (0 <= v < 10)%Z) (snd (item nd p)).
Proof.
  pose proof (dix_of_digits nd p) as HD. unfold item; simpl. split.
  - apply Forall_removelast; exact HD.
  - unfold set_prefix. apply Forall_app; split.
    + apply Forall_forall; intros v Hv. apply repeat_spec in Hv. left; exact Hv.
    + apply Forall_skipn. apply Forall_tl.
      eapply Forall_impl; [|exact HD]. intros v Hv; right; exact Hv.
Qed.

(** C9: every item of an AdditionDataset has its inputs in the vocabulary
    [0, vocab_size) = [0, 10), and each target is either a vocabulary id or
    the sentinel -100, which lies outside the vocabulary. *)
Theorem sentinel_outside_vocab (perm : nat -> nat -> list nat) (nd : nat) (sp : string)
  (i : nat) (x y : list Z) :
  getitem (init perm nd sp) i = Some (x, y) ->
  let V := Z.of_nat (vocab_size (init perm nd sp)) in
  V = 10%Z /\ ~ (0 <= mask_value < V)%Z /\
  Forall (fun v => (0 <= v < V)%Z) x /\
  Forall (fun v => v = mask_value \/ (0 <= v < V)%Z) y.
Proof.
  intros Hget V. apply getitem_some in Hget. destruct Hget as (p & _ & Hp).
  pose proof (item_digits nd p) as [Hx Hy]. rewrite Hp in Hx, Hy. simpl in Hx, Hy.
  assert (HV : V = 10%Z) by reflexivity.
  split; [exact HV|]. rewrite HV. split; [unfold mask_value; lia|]. split; assumption.
Qed.

Lemma sentinel_outside_vocab_witness :
  getitem (init id_perm 2 "train") 0 = Some ([1; 0; 0; 0; 0; 1]%Z, [-100; -100; -100; 0; 1; 0]%Z) /\
  let V := Z.of_nat (vocab_size (init id_perm 2 "train")) in
  V = 10%Z /\ ~ (0 <= mask_value < V)%Z /\
  Forall (fun v => (0 <= v < V)%Z) [1; 0; 0; 0; 0; 1]%Z /\
  Forall (fun v => v = mask_value \/ (0 <= v < V)%Z) [-100; -100; -100; 0; 1; 0]%Z.
Proof.
  split; [vm_compute; reflexivity|].
  apply (sentinel_outside_vocab id_perm 2 "train" 0). vm_compute; reflexivity.
Defined.

(** C10 (as amended, [ndigit >= 1]): an item of an [ndigit]-digit
    AdditionDataset is a pair [(x, y)] of length [3*ndigit], the block size;
    the digit string is [a], [b] and [c = a+b] zero-padded to [ndigit],
    [ndigit] and [ndigit+1] digits, with [idx = a * 10^ndigit + b]; [x] is that
    string without its last digit, [y] is [x] shifted left by one with the
    last digit of [c] appended, and exactly its first [2*ndigit-1] entries
    are -100. *)
Theorem item_encoding (perm : nat -> nat -> list nat) (Hperm : permutation_ok perm)
  (nd : nat) (sp : string) (i : nat) (x y : list Z)
  (Hnd : 1 <= nd) (Hget : getitem (init perm nd sp) i = Some (x, y)) :
  block_size (init perm nd sp) = 3 * nd /\ List.length x = 3 * nd /\ List.length y = 3 * nd /\
  exists p da db dc,
    p < (10 ^ nd) ^ 2 /\
    dix_of nd p = da ++ db ++ dc /\
    List.length da = nd /\ List.length db = nd /\ List.length dc = nd + 1 /\
    decode da = Z.of_nat (p / 10 ^ nd) /\ decode db = Z.of_nat (p mod 10 ^ nd) /\
    decode dc = Z.of_nat (p / 10 ^ nd + p mod 10 ^ nd) /\
    x = removelast (da ++ db ++ dc) /\
    (forall k, k < 3 * nd ->
       nth k y 0%Z = if k <? 2 * nd - 1 then mask_value else nth k (tl x ++ [last dc 0%Z]) 0%Z) /\
    (forall k, k < 3 * nd -> nth k y 0%Z = mask_value <-> k < 2 * nd - 1).
Proof.
  apply getitem_some in Hget. destruct Hget as (p & Hin & Hp).
  pose proof (ixes_bound perm nd sp p Hperm Hin) as Hb.
  destruct (item_fields nd p Hnd Hb) as (HD & Hla & Hlb & Hlc).
  set (da := map Z.of_nat (padded nd (p / 10 ^ nd))) in *.
  set (db := map Z.of_nat (padded nd (p mod 10 ^ nd))) in *.
  set (dc := map Z.of_nat (padded (nd + 1) (p / 10 ^ nd + p mod 10 ^ nd))) in *.
  set (D := da ++ db ++ dc) in *.
  unfold item in Hp. rewrite HD in Hp. injection Hp as Hx Hy.
  assert (HlD : List.length D = 3 * nd + 1) by (unfold D; rewrite !length_app; lia).
  assert (HDne : D <> []) by (intros E; rewrite E in HlD; simpl in HlD; lia).
  pose proof (app_removelast_last 0%Z HDne) as HDx.
  assert (Hlx : List.length x = 3 * nd).
  { rewrite <- Hx. rewrite HDx in HlD. rewrite length_app in HlD. simpl in HlD. lia. }
  assert (Hlast : last D 0%Z = last dc 0%Z).
  { unfold D. rewrite app_assoc. apply last_app_nonempty.
    intros E; rewrite E in Hlc; simpl in Hlc; lia. }
  assert (Htl : tl D = tl x ++ [last dc 0%Z]).
  { rewrite <- Hlast, <- Hx. rewrite HDx at 1.
    destruct (removelast D) as [|h t] eqn:E.
    - rewrite <- Hx in Hlx. simpl in Hlx. lia.
    - reflexivity. }
  assert (HltD : List.length (tl D) = 3 * nd) by (rewrite length_tl; lia).
  assert (Hy' : y = repeat mask_value (2 * nd - 1) ++ skipn (2 * nd - 1) (tl D)).
  { rewrite <- Hy. unfold set_prefix. rewrite HltD.
    replace (Z.of_nat nd * 2 - 1 <? 0)%Z with false by lia.
    replace (Z.to_nat (Z.min (Z.of_nat nd * 2 - 1) (Z.of_nat (3 * nd)))) with (2 * nd - 1) by lia.
    reflexivity. }
  assert (Hly : List.length y = 3 * nd).
  { rewrite Hy', length_app, repeat_length, length_skipn. lia. }
  assert (Hnth : forall k, nth k y 0%Z = if k <? 2 * nd - 1 then mask_value else nth k (tl D) 0%Z).
  { intros k. rewrite Hy'. apply nth_prefix_masked. lia. }
  split; [simpl; lia|]. split; [exact Hlx|]. split; [exact Hly|].
  exists p, da, db, dc.
  split; [exact Hb|]. split; [exact HD|]. split; [exact Hla|]. split; [exact Hlb|].
  split; [exact Hlc|].
  split; [unfold da; rewrite decode_natval, padded_natval; reflexivity|].
  split; [unfold db; rewrite decode_natval, padded_natval; reflexivity|].
  split; [unfold dc; rewrite decode_natval, padded_natval; reflexivity|].
  split; [symmetry; exact Hx|].
  split.
  - intros k _. rewrite Hnth, Htl. reflexivity.
  - intros k Hk. rewrite Hnth. destruct (Nat.ltb_spec k (2 * nd - 1)).
    + tauto.
    + split; [|lia]. intros E. exfalso.
      pose proof (dix_of_digits nd p) as HF. rewrite HD in HF. fold D in HF.
      apply Forall_tl in HF. rewrite Forall_forall in HF.
      assert (Hk' : k < List.length (tl D)) by lia.
      specialize (HF _ (nth_In _ 0%Z Hk')). rewrite E in HF. unfold mask_value in HF. lia.
Qed.

Lemma item_encoding_witness :
  (permutation_ok id_perm /\ 1 <= 2 /\
   getitem (init id_perm 2 "train") 0 = Some ([1; 0; 0; 0; 0; 1]%Z, [-100; -100; -100; 0; 1; 0]%Z)) /\
  block_size (init id_perm 2 "train") = 3 * 2 /\ List.length [1; 0; 0; 0; 0; 1]%Z = 3 * 2 /\
  List.length [-100; -100; -100; 0; 1; 0]%Z = 3 * 2 /\
  exists p da db dc,
    p < (10 ^ 2) ^ 2 /\
    dix_of 2 p = da ++ db ++ dc /\
    List.length da = 2 /\ List.length db = 2 /\ List.length dc = 2 + 1 /\
    decode da = Z.of_nat (p / 10 ^ 2) /\ decode db = Z.of_nat (p mod 10 ^ 2) /\
    decode dc = Z.of_nat (p / 10 ^ 2 + p mod 10 ^ 2) /\
    [1; 0; 0; 0; 0; 1]%Z = removelast (da ++ db ++ dc) /\
    (forall k, k < 3 * 2 ->
       nth k [-100; -100; -100; 0; 1; 0]%Z 0%Z =
       if k <? 2 * 2 - 1 then mask_value else nth k (tl [1; 0; 0; 0; 0; 1]%Z ++ [last dc 0%Z]) 0%Z) /\
    (forall k, k < 3 * 2 -> nth k [-100; -100; -100; 0; 1; 0]%Z 0%Z = mask_value <-> k < 2 * 2 - 1).
Proof.
  split; [split; [exact id_perm_ok|split; [lia|vm_compute; reflexivity]]|].
  apply (item_encoding id_perm id_perm_ok 2 "train" 0); [lia|vm_compute; reflexivity].
Defined.

(** C10 as stated fails for [ndigit = 0]: that dataset has the single
    problem 0 + 0, rendered "000" (Python's [%00d] still prints one digit),
    so its item has [x] of length 2 while [3*ndigit = block_size = 0], and
    [y[:-1] = -100] masks one entry, not [2*0-1]. *)
Lemma item_encoding_ndigit0 :
  ~ (forall perm, permutation_ok perm -> forall nd sp i x y,
       getitem (init perm nd sp) i = Some (x, y) ->
       List.length x = 3 * nd /\ List.length y = 3 * nd /\ block_size (init perm nd sp) = 3 * nd).
Proof.
  intros H.
  assert (E : getitem (init id_perm 0 "train") 0 = Some ([0; 0]%Z, [-100; 0]%Z))
    by (vm_compute; reflexivity).
  destruct (H id_perm id_perm_ok 0 "train"%string 0 _ _ E) as [Hl _].
  simpl in Hl. discriminate.
Qed.

End AdditionClaims.

(* ------------------------------------------------------------------------- *)
(** ** Causality of the forward pass *)

Module GPTFacts.
Import GPT Causality.

Lemma nth_agree {A} (l l' : list A) (k : nat) (d : A) :
  nth_error l k = nth_error l' k -> nth k l d = nth k l' d.
Proof.
  intros H. destruct (nth_error l k) as [a|] eqn:E.
  - rewrite (nth_error_nth l k d E). symmetry. apply nth_error_nth. congruence.
  - rewrite !nth_overflow; [reflexivity| |]; apply nth_error_None; congruence.
Qed.

Lemma nth_error_tab {B} (f : nat -> B) (n i : nat) :
  nth_error (map f (seq 0 n)) i = if i <? n then Some (f i) else None.
Proof.
  rewrite nth_error_map, nth_error_seq. destruct (i <? n); reflexivity.
Qed.

Lemma length_zipw {A B C} (f : A -> B -> C) (l1 : list A) (l2 : list B) :
  List.length (zipw f l1 l2) = Nat.min (List.length l1) (List.length l2).
Proof.
  revert l2; induction l1 as [|a l1 IH]; intros [|b l2]; simpl; auto.
Qed.

Lemma nth_error_zipw {A B C} (f : A -> B -> C) (l1 : list A) (l2 : list B) (i : nat) :
  nth_error (zipw f l1 l2) i =
  match nth_error l1 i, nth_error l2 i with
  | Some a, Some b => Some (f a b)
  | _, _ => None
  end.
Proof.
  revert l2 i; induction l1 as [|a l1 IH]; intros [|b l2] [|i]; simpl; auto.
  destruct (nth_error l1 i); reflexivity.
Qed.

Lemma causal_tab {A B} (F : list A -> nat -> B) :
  (forall xs ys i, List.length xs = List.length ys -> i < List.length xs ->
     (forall k, k <= i -> nth_error xs k = nth_error ys k) -> F xs i = F ys i) ->
  causal (fun xs => map (F xs) (seq 0 (List.length xs))).
Proof.
  intros HF xs ys i Hl Hpre. rewrite !nth_error_tab, <- Hl.
  destruct (Nat.ltb_spec i (List.length xs)); [|reflexivity].
  f_equal. apply HF; assumption.
Qed.

Lemma len_pres_tab {A B} (F : list A -> nat -> B) :
  len_pres (fun xs => map (F xs) (seq 0 (List.length xs))).
Proof. intros xs. rewrite length_map, length_seq. reflexivity. Qed.

Lemma causal_map {A B} (g : A -> B) : causal (map g).
Proof.
  intros xs ys i _ Hpre. rewrite !nth_error_map, (Hpre i (le_n i)). reflexivity.
Qed.

Lemma len_pres_map {A B} (g : A -> B) : len_pres (map g).
Proof. intros xs; apply length_map. Qed.

Lemma causal_id {A} : causal (fun xs : list A => xs).
Proof. intros xs ys i _ Hpre. apply Hpre. lia. Qed.

Lemma causal_comp {A B C} (f : list B -> list C) (g : list A -> list B) :
  causal f -> causal g -> len_pres g -> causal (fun xs => f (g xs)).
Proof.
  intros Hf Hg Lg xs ys i Hl Hpre. apply Hf.
  - rewrite !Lg. exact Hl.
  - intros k Hk. apply Hg; [exact Hl|]. intros k' Hk'. apply Hpre. lia.
Qed.

Lemma causal_zipw {A B C D} (h : B -> C -> D) (f : list A -> list B) (g : list A -> list C) :
  causal f -> causal g -> causal (fun xs => zipw h (f xs) (g xs)).
Proof.
  intros Hf Hg xs ys i Hl Hpre. rewrite !nth_error_zipw.
  rewrite (Hf xs ys i Hl Hpre), (Hg xs ys i Hl Hpre). reflexivity.
Qed.

Lemma len_pres_zipw {A B C D} (h : B -> C -> D) (f : list A -> list B) (g : list A -> list C) :
  len_pres f -> len_pres g -> len_pres (fun xs => zipw h (f xs) (g xs)).
Proof. intros Lf Lg xs. rewrite length_zipw, Lf, Lg. lia. Qed.

Lemma rsum_ext (f g : nat -> R) (l : list nat) :
  (forall j, f j = g j) -> rsum f l = rsum g l.
Proof.
  intros H. induction l as [|j l IH]; simpl; [reflexivity|]. rewrite H, IH. reflexivity.
Qed.

Section Attention.
Variable cfg : GPTConfig.
Variable h : Head.

Lemma att_score_agree (xs ys : list vec) (i : nat) :
  (forall k, k <= i -> nth_error xs k = nth_error ys k) ->
  forall j, att_score cfg h xs i j = att_score cfg h ys i j.
Proof.
  intros Hpre j. unfold att_score. destruct (Nat.leb_spec j i); [|reflexivity].
  rewrite (nth_agree xs ys i []) by (apply Hpre; lia).
  rewrite (nth_agree xs ys j []) by (apply Hpre; lia). reflexivity.
Qed.

Lemma att_weight_agree (xs ys : list vec) (i : nat) :
  List.length xs = List.length ys ->
  (forall k, k <= i -> nth_error xs k = nth_error ys k) ->
  forall j, att_weight cfg h xs i j = att_weight cfg h ys i j.
Proof.
  intros Hl Hpre j. unfold att_weight. rewrite Hl, (att_score_agree xs ys i Hpre j).
  f_equal. apply rsum_ext. intros j'. rewrite (att_score_agree xs ys i Hpre j'). reflexivity.
Qed.

(** The mask: a query never puts weight on a later position. *)
Lemma att_weight_future (xs : list vec) (i j : nat) :
  i < j -> att_weight cfg h xs i j = 0%R.
Proof.
  intros Hij. unfold att_weight, att_score.
  destruct (Nat.leb_spec j i); [lia|]. simpl. unfold Rdiv. apply Rmult_0_l.
Qed.

Lemma head_out_agree (xs ys : list vec) (i : nat) :
  List.length xs = List.length ys ->
  (forall k, k <= i -> nth_error xs k = nth_error ys k) ->
  head_out cfg h xs i = head_out cfg h ys i.
Proof.
  intros Hl Hpre. unfold head_out. rewrite Hl. apply map_ext. intros c.
  apply rsum_ext. intros j. rewrite (att_weight_agree xs ys i Hl Hpre j).
  destruct (Nat.le_gt_cases j i) as [Hj|Hj].
  - rewrite (nth_agree xs ys j []) by (apply Hpre; lia). reflexivity.
  - rewrite (att_weight_future ys i j Hj), !Rmult_0_l. reflexivity.
Qed.

End Attention.

Lemma causal_self_attention (cfg : GPTConfig) (hs : list Head) (w : mat) :
  causal (self_attention cfg hs w).
Proof.
  unfold self_attention. apply causal_tab. intros xs ys i Hl _ Hpre.
  f_equal. f_equal. apply map_ext. intros hd. apply head_out_agree; assumption.
Qed.

Lemma len_pres_self_attention (cfg : GPTConfig) (hs : list Head) (w : mat) :
  len_pres (self_attention cfg hs w).
Proof. apply len_pres_tab. Qed.

Lemma causal_block (cfg : GPTConfig) (b : Block) : causal (block_fwd cfg b) /\ len_pres (block_fwd cfg b).
Proof.
  set (inner := fun xs => zipw vadd xs (self_attention cfg (heads b) (wo b) (map (layer_norm (ln1 b)) xs))).
  set (outer := fun xs1 : list vec => zipw vadd xs1 (map (fun x => mlp b (layer_norm (ln2 b) x)) xs1)).
  assert (Ci : causal inner).
  { apply causal_zipw; [apply causal_id|].
    apply causal_comp; [apply causal_self_attention|apply causal_map|apply len_pres_map]. }
  assert (Li : len_pres inner).
  { intros xs. unfold inner. rewrite length_zipw, len_pres_self_attention, length_map. lia. }
  assert (Co : causal outer) by (apply causal_zipw; [apply causal_id|apply causal_map]).
  assert (Lo : len_pres outer) by (intros xs; unfold outer; rewrite length_zipw, length_map; lia).
  split.
  - exact (causal_comp outer inner Co Ci Li).
  - intros xs. change (List.length (outer (inner xs)) = List.length xs). rewrite Lo, Li. reflexivity.
Qed.

Lemma causal_stack {A} (cfg : GPTConfig) (bs : list Block) (F : list A -> list vec) :
  causal F -> len_pres F ->
  causal (fun t => fold_left (fun xs b => block_fwd cfg b xs) bs (F t)) /\
  len_pres (fun t => fold_left (fun xs b => block_fwd cfg b xs) bs (F t)).
Proof.
  revert F; induction bs as [|b bs IH]; intros F CF LF; simpl; [split; assumption|].
  destruct (causal_block cfg b) as [Cb Lb].
  apply (IH (fun t => block_fwd cfg b (F t))).
  - apply causal_comp; assumption.
  - intros t. rewrite Lb, LF. reflexivity.
Qed.

Lemma causal_embed (cfg : GPTConfig) (p : Params) : causal (embed cfg p) /\ len_pres (embed cfg p).
Proof.
  split; [|apply len_pres_tab].
  unfold embed. apply causal_tab. intros xs ys t Hl _ Hpre.
  rewrite (nth_agree xs ys t 0) by (apply Hpre; lia). reflexivity.
Qed.

(** The logits at [i] only depend on the tokens at [0..i]. *)
Lemma logits_at_prefix (cfg : GPTConfig) (p : Params) (toks toks' : list nat) (i : nat) :
  List.length toks = List.length toks' ->
  (forall k, k <= i -> nth_error toks k = nth_error toks' k) ->
  logits_at cfg p toks i = logits_at cfg p toks' i.
Proof.
  intros Hl Hpre. unfold logits_at, gpt. rewrite <- Hl.
  destruct (block_size cfg <? List.length toks); [reflexivity|].
  destruct (causal_embed cfg p) as [Ce Le].
  destruct (causal_stack cfg (blocks p) (embed cfg p) Ce Le) as [Cs Ls].
  apply (causal_comp (map (fun x => matvec (lm_head p) (layer_norm (ln_f p) x))) _
           (causal_map _) Cs Ls); assumption.
Qed.

Lemma list_set_length {A} (l : list A) (j : nat) (v : A) : List.length (list_set l j v) = List.length l.
Proof.
  revert j; induction l as [|a l IH]; intros [|j]; simpl; auto.
Qed.

Lemma list_set_other {A} (l : list A) (j k : nat) (v : A) :
  k <> j -> nth_error (list_set l j v) k = nth_error l k.
Proof.
  revert j k; induction l as [|a l IH]; intros [|j] [|k] Hkj; simpl; auto; try lia.
Qed.

Lemma gpt_ok (cfg : GPTConfig) (p : Params) (toks : list nat) :
  List.length toks <= block_size cfg ->
  exists ls, gpt cfg p toks = Ok ls /\ List.length ls = List.length toks /\
             Forall (fun l => List.length l = List.length (lm_head p)) ls.
Proof.
  intros Hle. unfold gpt.
  destruct (Nat.ltb_spec (block_size cfg) (List.length toks)); [lia|].
  eexists; split; [reflexivity|].
  destruct (causal_embed cfg p) as [_ Le].
  destruct (causal_stack cfg (blocks p) (embed cfg p) (proj1 (causal_embed cfg p)) Le) as [_ Ls].
  split.
  - rewrite length_map. apply Ls.
  - apply Forall_forall. intros l Hl. apply in_map_iff in Hl. destruct Hl as (x & <- & _).
    unfold matvec. apply length_map.
Qed.

Lemma gpt_err (cfg : GPTConfig) (p : Params) (toks : list nat) :
  block_size cfg < List.length toks -> gpt cfg p toks = Err ConfigError.
Proof.
  intros H. unfold gpt. destruct (Nat.ltb_spec (block_size cfg) (List.length toks)); [reflexivity|lia].
Qed.

Lemma mapR_ok {A B} (f : A -> result B) (P : B -> Prop) (l : list A) :
  (forall a, In a l -> exists b, f a = Ok b /\ P b) ->
  exists bs, mapR f l = Ok bs /\ List.length bs = List.length l /\ Forall P bs.
Proof.
  induction l as [|a l IH]; intros H; simpl.
  - exists []; repeat split; constructor.
  - destruct (H a (or_introl eq_refl)) as (b & Hb & Pb). rewrite Hb. simpl.
    destruct IH as (bs & Hbs & Hl & HP); [intros a' Ha'; apply H; right; exact Ha'|].
    rewrite Hbs. simpl. exists (b :: bs). split; [reflexivity|]. simpl. split; [lia|].
    constructor; assumption.
Qed.

Lemma gpt_batch_ok (cfg : GPTConfig) (p : Params) (x : tokens2) :
  rectangular x -> t_len x <= block_size cfg ->
  exists out, gpt_batch cfg p x = Ok out /\ List.length out = List.length (t_rows x) /\
    Forall (fun o => List.length o = t_len x /\
                     Forall (fun l => List.length l = List.length (lm_head p)) o) out.
Proof.
  intros Hr Hle. unfold gpt_batch.
  destruct (Nat.ltb_spec (block_size cfg) (t_len x)); [lia|].
  apply mapR_ok. intros r Hin. rewrite <- (Hr r Hin).
  destruct (gpt_ok cfg p r) as (ls & Hls & Hl & HF); [rewrite (Hr r Hin); exact Hle|].
  exists ls. split; [exact Hls|]. split; assumption.
Qed.

End GPTFacts.

(* ------------------------------------------------------------------------- *)
(** ** Shapes of the initial parameters *)

Module InitFacts.
Import GPT Init.

Lemma rvec_length (draw : nat -> nat -> R) (seed n c : nat) :
  List.length (fst (rvec draw seed n c)) = n.
Proof.
  revert c; induction n as [|n IH]; intros c; [reflexivity|].
  simpl. unfold rbind, rret, rnum. specialize (IH (S c)).
  destruct (rvec draw seed n (S c)) as [xs c']. simpl in *. lia.
Qed.

Lemma rmat_length (draw : nat -> nat -> R) (seed rows cols c : nat) :
  List.length (fst (rmat draw seed rows cols c)) = rows.
Proof.
  revert c; induction rows as [|r IH]; intros c; [reflexivity|].
  simpl. unfold rbind, rret.
  destruct (rvec draw seed cols c) as [v c1].
  specialize (IH c1). destruct (rmat draw seed r cols c1) as [m c2]. simpl in *. lia.
Qed.

Lemma init_lm_head (draw : nat -> nat -> R) (cfg : GPTConfig) (seed : nat) :
  List.length (lm_head (init_params draw cfg seed)) = vocab_size cfg.
Proof.
  unfold init_params, rparams, rbind, rret.
  destruct (rmat draw seed (vocab_size cfg) (n_embd cfg) 0) as [te c1].
  destruct (rmat draw seed (block_size cfg) (n_embd cfg) c1) as [pe c2].
  destruct (rlist (n_layer cfg) (rblock draw seed cfg) c2) as [bs c3].
  pose proof (rmat_length draw seed (vocab_size cfg) (n_embd cfg) c3) as H.
  destruct (rmat draw seed (vocab_size cfg) (n_embd cfg) c3) as [hd c4]. simpl in *. exact H.
Qed.

End InitFacts.

(* ------------------------------------------------------------------------- *)
(** ** The masked loss *)

Module LossFacts.
Import GPT Loss.

Lemma masked_sum (ps : list (vec * Z)) :
  vsum (zipw Rmult (map (fun py => if excluded (snd py) then 0%R else 1%R) ps)
                   (map (fun py => cross_entropy (fst py)
                                     (if excluded (snd py) then 0%nat else Z.to_nat (snd py))) ps))
  = vsum (map (fun py => cross_entropy (fst py) (Z.to_nat (snd py)))
              (filter (fun py => negb (excluded (snd py))) ps)).
Proof.
  induction ps as [|[l y] ps IH]; [reflexivity|].
  cbn [map zipw filter fst snd]. destruct (excluded y); cbn [negb vsum fold_right map].
  - unfold vsum in *. rewrite <- IH, Rmult_0_l, Rplus_0_l. reflexivity.
  - unfold vsum in *. rewrite <- IH, Rmult_1_l. reflexivity.
Qed.

Lemma loss_of_logits_mean (lgs : list (list vec)) (ys : list (list Z)) :
  loss_of_logits lgs ys = mean (supervised_ce lgs ys).
Proof.
  unfold loss_of_logits, supervised_ce. rewrite masked_sum.
  destruct (filter (fun py => negb (excluded (snd py))) (positions lgs ys)) as [|py rest] eqn:E.
  - reflexivity.
  - unfold mean. cbn [map List.length Nat.eqb]. rewrite length_map. reflexivity.
Qed.

Lemma in_zipw {A B C} (f : A -> B -> C) (l1 : list A) (l2 : list B) (z : C) :
  In z (zipw f l1 l2) -> exists a b, In a l1 /\ In b l2 /\ z = f a b.
Proof.
  revert l2; induction l1 as [|a l1 IH]; intros [|b l2] H; simpl in H; try contradiction.
  destruct H as [<-|H].
  - exists a, b. simpl. tauto.
  - destruct (IH l2 H) as (a' & b' & H1 & H2 & ->). exists a', b'. simpl. tauto.
Qed.

Lemma positions_target (lgs : list (list vec)) (ys : list (list Z)) (py : vec * Z) :
  In py (positions lgs ys) -> exists yr, In yr ys /\ In (snd py) yr.
Proof.
  unfold positions. intros H. apply in_concat in H. destruct H as (row & Hrow & Hpy).
  apply in_zipw in Hrow. destruct Hrow as (ls & yr & _ & Hyr & ->).
  apply in_zipw in Hpy. destruct Hpy as (l & y & _ & Hy & ->).
  exists yr. split; assumption.
Qed.

Lemma filter_none {A} (f : A -> bool) (l : list A) :
  (forall a, In a l -> f a = false) -> filter f l = [].
Proof.
  induction l as [|a l IH]; intros H; [reflexivity|].
  simpl. rewrite (H a (or_introl eq_refl)). apply IH. intros a' Ha'. apply H. right; exact Ha'.
Qed.

End LossFacts.

(* ------------------------------------------------------------------------- *)
(** ** Model claims *)

Module ModelClaims.
Import GPT GPTFacts.

(** C1: causality.  Changing the token at a position [j > i] leaves the
    logits at position [i] unchanged, and in CausalSelfAttention the query
    at [i] gives weight 0 to every key position after [i]. *)
Theorem gpt_causal (cfg : GPTConfig) (p : Params) (toks : list nat) (i j v : nat)
  (Hij : i < j) :
  logits_at cfg p (list_set toks j v) i = logits_at cfg p toks i /\
  (forall h xs, att_weight cfg h xs i j = 0%R).
Proof.
  split.
  - apply logits_at_prefix; [apply list_set_length|].
    intros k Hk. apply list_set_other. lia.
  - intros h xs. apply att_weight_future. exact Hij.
Qed.

Lemma gpt_causal_witness :
  (0 < 1)%nat /\
  logits_at Examples.cfg0 Examples.p0 (list_set [1; 2] 1 0) 0 = logits_at Examples.cfg0 Examples.p0 [1; 2] 0 /\
  (forall h xs, att_weight Examples.cfg0 h xs 0 1 = 0%R).
Proof. split; [lia|]. apply (gpt_causal Examples.cfg0 Examples.p0 [1; 2] 0 1 0). lia. Defined.

(** C7: on a (batch, T) array of token ids with [T <= block_size] the
    forward pass returns (batch, T, vocab_size) logits; it fails with a
    configuration error exactly when [T > block_size]; and a training step
    on such a batch fails with the same error. *)
Theorem gpt_batch_shape (cfg : GPTConfig) (p : Params) (x : tokens2)
  (Hrect : rectangular x) (Hhead : List.length (lm_head p) = vocab_size cfg) :
  (t_len x <= block_size cfg ->
   exists out, gpt_batch cfg p x = Ok out /\ List.length out = List.length (t_rows x) /\
     Forall (fun o => List.length o = t_len x /\
                      Forall (fun l => List.length l = vocab_size cfg) o) out) /\
  (gpt_batch cfg p x = Err ConfigError <-> block_size cfg < t_len x) /\
  (block_size cfg < t_len x ->
   forall tc grad clip update s ys,
     Trainer.train_step cfg tc grad clip update s (x, ys) = Err ConfigError).
Proof.
  assert (Herr : block_size cfg < t_len x -> gpt_batch cfg p x = Err ConfigError).
  { intros H. unfold gpt_batch. destruct (Nat.ltb_spec (block_size cfg) (t_len x)); [reflexivity|lia]. }
  split; [|split].
  - intros Hle. rewrite <- Hhead. apply gpt_batch_ok; assumption.
  - split; [|exact Herr]. intros HE.
    destruct (Nat.le_gt_cases (t_len x) (block_size cfg)) as [Hle|Hgt]; [|exact Hgt].
    destruct (gpt_batch_ok cfg p x Hrect Hle) as (out & Hout & _). congruence.
  - intros Hgt tc grad clip update s ys.
    unfold Trainer.train_step, Loss.loss_fn. simpl.
    destruct (Nat.ltb_spec (block_size cfg) (t_len x)); simpl; [|lia].
    unfold gpt_batch. destruct (Nat.ltb_spec (block_size cfg) (t_len x)); [reflexivity|lia].
Qed.

Lemma x1_rectangular : rectangular Examples.x1.
Proof. intros r Hr. simpl in Hr. destruct Hr as [<-|[<-|[]]]; reflexivity. Qed.

Lemma gpt_batch_shape_witness :
  (rectangular (mkTokens 2 [[0; 1]; [2; 2]]) /\
   List.length (lm_head Examples.p0) = vocab_size Examples.cfg0) /\
  (t_len (mkTokens 2 [[0; 1]; [2; 2]]) <= block_size Examples.cfg0 ->
   exists out, gpt_batch Examples.cfg0 Examples.p0 (mkTokens 2 [[0; 1]; [2; 2]]) = Ok out /\
     List.length out = List.length (t_rows (mkTokens 2 [[0; 1]; [2; 2]])) /\
     Forall (fun o => List.length o = t_len (mkTokens 2 [[0; 1]; [2; 2]]) /\
                      Forall (fun l => List.length l = vocab_size Examples.cfg0) o) out) /\
  (gpt_batch Examples.cfg0 Examples.p0 (mkTokens 2 [[0; 1]; [2; 2]]) = Err ConfigError <->
   block_size Examples.cfg0 < t_len (mkTokens 2 [[0; 1]; [2; 2]])) /\
  (block_size Examples.cfg0 < t_len (mkTokens 2 [[0; 1]; [2; 2]]) ->
   forall tc grad clip update s ys,
     Trainer.train_step Examples.cfg0 tc grad clip update s (mkTokens 2 [[0; 1]; [2; 2]], ys)
     = Err ConfigError).
Proof.
  assert (Hr : rectangular (mkTokens 2 [[0; 1]; [2; 2]])).
  { intros r Hr. simpl in Hr. destruct Hr as [<-|[<-|[]]]; reflexivity. }
  assert (Hh : List.length (lm_head Examples.p0) = vocab_size Examples.cfg0)
    by apply InitFacts.init_lm_head.
  split; [split; assumption|].
  apply (gpt_batch_shape Examples.cfg0 Examples.p0 _ Hr Hh).
Defined.

(** C2: on a batch with [T <= block_size] the loss is a single number, the
    mean cross-entropy over exactly the target positions that are not the
    sentinel; when every target is the sentinel it is 0, without error. *)
Theorem loss_fn_masked_mean (cfg : GPTConfig) (p : Params) (x : tokens2) (ys : list (list Z))
  (Hrect : rectangular x) (Hlen : t_len x <= block_size cfg) :
  (exists lgs, gpt_batch cfg p x = Ok lgs /\
               Loss.loss_fn cfg p x ys = Ok (Loss.mean (Loss.supervised_ce lgs ys))) /\
  ((forall yr, In yr ys -> forall y, In y yr -> y = Loss.ignore_index) ->
   Loss.loss_fn cfg p x ys = Ok 0%R).
Proof.
  destruct (gpt_batch_ok cfg p x Hrect Hlen) as (lgs & Hlgs & _).
  assert (Hl : Loss.loss_fn cfg p x ys = Ok (Loss.mean (Loss.supervised_ce lgs ys))).
  { unfold Loss.loss_fn. rewrite Hlgs. simpl. rewrite LossFacts.loss_of_logits_mean. reflexivity. }
  split; [exists lgs; split; assumption|].
  intros Hall. rewrite Hl. unfold Loss.supervised_ce.
  replace (filter _ (Loss.positions lgs ys)) with (@nil (vec * Z)); [reflexivity|].
  symmetry. apply LossFacts.filter_none. intros py Hpy.
  destruct (LossFacts.positions_target _ _ _ Hpy) as (yr & Hyr & Hy).
  rewrite (Hall yr Hyr _ Hy). reflexivity.
Qed.

Lemma loss_fn_masked_mean_witness :
  (rectangular Examples.x1 /\ t_len Examples.x1 <= block_size Examples.cfg0) /\
  (exists lgs, gpt_batch Examples.cfg0 Examples.p0 Examples.x1 = Ok lgs /\
               Loss.loss_fn Examples.cfg0 Examples.p0 Examples.x1 Examples.ys1
               = Ok (Loss.mean (Loss.supervised_ce lgs Examples.ys1))) /\
  ((forall yr, In yr Examples.ys1 -> forall y, In y yr -> y = Loss.ignore_index) ->
   Loss.loss_fn Examples.cfg0 Examples.p0 Examples.x1 Examples.ys1 = Ok 0%R).
Proof.
  split; [split; [exact x1_rectangular|simpl; lia]|].
  apply (loss_fn_masked_mean Examples.cfg0 Examples.p0 Examples.x1 Examples.ys1 x1_rectangular).
  simpl; lia.
Defined.

End ModelClaims.

(* ------------------------------------------------------------------------- *)
(** ** The learning-rate schedule *)

Module ScheduleClaims.
Import Schedule Examples.
Local Open Scope R_scope.

Lemma frac_bounds (a b c : nat) :
  (a <= b <= c)%nat -> (0 < c)%nat ->
  0 <= INR a / INR c /\ INR a / INR c <= INR b / INR c /\ INR b / INR c <= 1.
Proof.
  intros [Hab Hbc] Hc.
  assert (HC : 0 < INR c) by (apply lt_0_INR; exact Hc).
  assert (HI : 0 < / INR c) by (apply Rinv_0_lt_compat; exact HC).
  unfold Rdiv. split; [|split].
  - apply Rmult_le_pos; [apply pos_INR | lra].
  - apply Rmult_le_compat_r; [lra | apply le_INR; exact Hab].
  - rewrite <- (Rinv_r (INR c)) by lra.
    apply Rmult_le_compat_r; [lra | apply le_INR; exact Hbc].
Qed.

Lemma pi_frac_bounds (p : R) : 0 <= p <= 1 -> 0 <= PI * p /\ PI * p <= PI.
Proof.
  intros [H0 H1]. pose proof PI_RGT_0 as HPI. split.
  - apply Rmult_le_pos; lra.
  - rewrite <- (Rmult_1_r PI) at 2. apply Rmult_le_compat_l; lra.
Qed.

(** Shape of the cosine segment: between 10% of the base rate and the base rate. *)
Lemma cos_segment_bounds (base x : R) :
  0 <= base ->
  base * / 10 <= base * Rmax (/ 10) ((1 + cos x) / 2) <= base.
Proof.
  intros Hb. pose proof (COS_bound x) as [Hl Hu].
  assert (Hm : / 10 <= Rmax (/ 10) ((1 + cos x) / 2) <= 1)
    by (unfold Rmax; destruct (Rle_dec (/ 10) ((1 + cos x) / 2)); lra).
  split.
  - apply Rmult_le_compat_l; lra.
  - rewrite <- (Rmult_1_r base) at 2. apply Rmult_le_compat_l; lra.
Qed.

(** The floored multiplier follows the cosine's order. *)
Lemma floor_mono (c1 c2 : R) :
  c2 <= c1 -> Rmax (/ 10) ((1 + c2) / 2) <= Rmax (/ 10) ((1 + c1) / 2).
Proof.
  intros H. unfold Rmax.
  destruct (Rle_dec (/ 10) ((1 + c2) / 2)); destruct (Rle_dec (/ 10) ((1 + c1) / 2)); lra.
Qed.

(** Claim C3.  [lr_at] is a function of the token count and the trainer
    configuration.  With decay disabled it is the base rate everywhere.  With
    decay enabled (and [warmup_tokens <= final_tokens], base rate [>= 0]) it
    is [base * t / warmup] below the warmup, zero at 0 tokens, the base rate
    at [warmup_tokens] when the cosine span is not empty, the cosine from the
    base rate to 10% of it on [warmup_tokens, final_tokens), non-increasing
    from [warmup_tokens] on, and exactly 10% of the base rate (non-zero for a
    positive base rate) from [final_tokens] on. *)
Theorem lr_schedule (tc : TrainerConfig)
  (Hwf : (warmup_tokens tc <= final_tokens tc)%nat) (Hbase : 0 <= learning_rate tc) :
  (lr_decay tc = false -> forall t, lr_at t tc = learning_rate tc) /\
  (lr_decay tc = true ->
     (forall t, (t < warmup_tokens tc)%nat ->
        lr_at t tc = learning_rate tc * (INR t / INR (warmup_tokens tc))) /\
     (forall t1 t2, (t1 <= t2 < warmup_tokens tc)%nat -> lr_at t1 tc <= lr_at t2 tc) /\
     ((0 < warmup_tokens tc)%nat -> lr_at 0 tc = 0) /\
     ((warmup_tokens tc < final_tokens tc)%nat -> lr_at (warmup_tokens tc) tc = learning_rate tc) /\
     (forall t, (warmup_tokens tc <= t < final_tokens tc)%nat ->
        lr_at t tc = learning_rate tc * Rmax (/ 10)
          ((1 + cos (PI * (INR (t - warmup_tokens tc) /
                          INR (final_tokens tc - warmup_tokens tc)))) / 2) /\
        learning_rate tc * / 10 <= lr_at t tc <= learning_rate tc) /\
     (forall t1 t2, (warmup_tokens tc <= t1 <= t2)%nat -> lr_at t2 tc <= lr_at t1 tc) /\
     (forall t, (final_tokens tc <= t)%nat ->
        lr_at t tc = learning_rate tc * / 10 /\ (0 < learning_rate tc -> lr_at t tc <> 0))).
Proof.
  unfold lr_at. split.
  { intros Hd t. rewrite Hd. reflexivity. }
  intros Hd. rewrite Hd. cbn [negb].
  set (w := warmup_tokens tc) in *. set (f := final_tokens tc) in *.
  set (b := learning_rate tc) in *.
  split; [|split; [|split; [|split; [|split; [|split]]]]].
  - intros t Ht. apply Nat.ltb_lt in Ht. rewrite Ht. reflexivity.
  - intros t1 t2 [H12 H2].
    assert (Ht1 : (t1 <? w)%nat = true) by (apply Nat.ltb_lt; lia).
    assert (Ht2 : (t2 <? w)%nat = true) by (apply Nat.ltb_lt; lia).
    rewrite Ht1, Ht2.
    destruct (frac_bounds t1 t2 w) as [_ [Hf _]]; [lia | lia |].
    apply Rmult_le_compat_l; assumption.
  - intros Hw. assert (H0 : (0 <? w)%nat = true) by (apply Nat.ltb_lt; exact Hw).
    rewrite H0. cbn [INR]. unfold Rdiv. rewrite Rmult_0_l, Rmult_0_r. reflexivity.
  - intros Hwf'. rewrite Nat.ltb_irrefl.
    assert (Hf : (f <=? w)%nat = false) by (apply Nat.leb_gt; exact Hwf').
    rewrite Hf, Nat.sub_diag. cbn [INR]. unfold Rdiv. rewrite Rmult_0_l, Rmult_0_r, cos_0.
    rewrite Rmax_right by lra. field.
  - intros t [H1 H2].
    assert (Ht : (t <? w)%nat = false) by (apply Nat.ltb_ge; exact H1).
    assert (Hf : (f <=? t)%nat = false) by (apply Nat.leb_gt; exact H2).
    rewrite Ht, Hf. split; [reflexivity | apply cos_segment_bounds; exact Hbase].
  - intros t1 t2 [H1 H12].
    assert (Ht1 : (t1 <? w)%nat = false) by (apply Nat.ltb_ge; lia).
    assert (Ht2 : (t2 <? w)%nat = false) by (apply Nat.ltb_ge; lia).
    rewrite Ht1, Ht2.
    destruct (f <=? t2)%nat eqn:Hf2; destruct (f <=? t1)%nat eqn:Hf1.
    + lra.
    + apply (cos_segment_bounds b _ Hbase).
    + apply Nat.leb_le in Hf1. apply Nat.leb_gt in Hf2. lia.
    + apply Nat.leb_gt in Hf1, Hf2.
      destruct (frac_bounds (t1 - w) (t2 - w) (f - w)) as [Hp0 [Hp12 Hp1]]; [lia | lia |].
      set (p1 := INR (t1 - w) / INR (f - w)) in *.
      set (p2 := INR (t2 - w) / INR (f - w)) in *.
      destruct (pi_frac_bounds p1) as [Ha1 Ha2]; [lra |].
      destruct (pi_frac_bounds p2) as [Hb1 Hb2]; [lra |].
      assert (Hc : cos (PI * p2) <= cos (PI * p1)).
      { apply cos_decr_1; try assumption.
        apply Rmult_le_compat_l; [left; apply PI_RGT_0 | exact Hp12]. }
      apply Rmult_le_compat_l; [exact Hbase | apply floor_mono; exact Hc].
  - intros t Ht.
    assert (Hw : (t <? w)%nat = false) by (apply Nat.ltb_ge; lia).
    assert (Hf : (f <=? t)%nat = true) by (apply Nat.leb_le; exact Ht).
    rewrite Hw, Hf. split; [reflexivity |].
    intros Hb. apply Rgt_not_eq. apply Rmult_lt_0_compat; lra.
Qed.

Lemma lr_schedule_witness :
  (warmup_tokens tc_ex <= final_tokens tc_ex)%nat /\ 0 <= learning_rate tc_ex /\
  lr_at 0 tc_ex = 0 /\ lr_at 4 tc_ex = 6 / 10000 /\ lr_at 12 tc_ex = 6 / 10000 * / 10.
Proof.
  assert (H1 : (warmup_tokens tc_ex <= final_tokens tc_ex)%nat) by (simpl; lia).
  assert (H2 : 0 <= learning_rate tc_ex) by (simpl; lra).
  destruct (lr_schedule tc_ex H1 H2) as [_ H].
  destruct (H eq_refl) as [_ [_ [H0 [Hw [_ [_ Hf]]]]]].
  split; [exact H1 |]. split; [exact H2 |]. split; [apply H0; simpl; lia |].
  split; [apply Hw; simpl; lia |]. apply (Hf 12%nat); simpl; lia.
Defined.

End ScheduleClaims.

(* ------------------------------------------------------------------------- *)
(** ** Lemmas on the sampler *)

Module SamplerFacts.
Import GPT GPTFacts Sampler.
Local Open Scope R_scope.

Lemma crop_length (bs : nat) (ctx : list nat) :
  List.length (crop bs ctx) = Nat.min (List.length ctx) bs.
Proof.
  unfold crop. destruct (Nat.leb_spec (List.length ctx) bs).
  - lia.
  - rewrite length_skipn. lia.
Qed.

Lemma crop_last (bs : nat) (ctx : list nat) :
  crop bs ctx = skipn (List.length ctx - bs) ctx.
Proof.
  unfold crop. destruct (Nat.leb_spec (List.length ctx) bs); [|reflexivity].
  replace (List.length ctx - bs)%nat with 0%nat by lia. reflexivity.
Qed.

Lemma last_opt_last {A} (l : list A) (d : A) : l <> [] -> last_opt l = Some (last l d).
Proof.
  induction l as [|a l IH]; intros H; [congruence|].
  destruct l as [|b l]; [reflexivity|].
  change (last_opt (b :: l) = Some (last (b :: l) d)). apply IH. discriminate.
Qed.

(** One step on a non-empty context: the forward pass on the cropped context
    succeeds, and the token is chosen from the logits at its last position. *)
Lemma next_token_ok (cfg : GPTConfig) (p : Params) (temperature : R) (top_k : option nat)
  (md : mode) (u : R) (ctx : list nat) :
  (0 < block_size cfg)%nat -> ctx <> [] ->
  exists lgs, gpt cfg p (crop (block_size cfg) ctx) = Ok lgs /\
    List.length lgs = Nat.min (List.length ctx) (block_size cfg) /\
    next_token cfg p temperature top_k md u ctx =
      Ok (let lg := map (fun v => v / temperature) (last lgs []) in
          let probs := softmax (match top_k with
                                | None => map Fin lg
                                | Some k => top_k_mask k lg end) in
          match md with Greedy => argmax probs | Stochastic => inv_cdf u 0 0 probs end).
Proof.
  intros Hbs Hctx.
  destruct (gpt_ok cfg p (crop (block_size cfg) ctx)) as (ls & Hls & Hlen & _).
  { rewrite crop_length. lia. }
  rewrite crop_length in Hlen.
  exists ls. split; [exact Hls|]. split; [exact Hlen|].
  unfold next_token. rewrite Hls. cbn [bind].
  rewrite (last_opt_last ls []); [reflexivity|].
  intros E. rewrite E in Hlen. cbn [List.length] in Hlen.
  destruct ctx as [|c ctx]; [congruence|]. cbn [List.length] in Hlen. lia.
Qed.

Lemma next_token_some (cfg : GPTConfig) (p : Params) (temperature : R) (top_k : option nat)
  (md : mode) (u : R) (ctx : list nat) :
  (0 < block_size cfg)%nat -> ctx <> [] ->
  exists t, next_token cfg p temperature top_k md u ctx = Ok t.
Proof.
  intros Hbs Hctx.
  destruct (next_token_ok cfg p temperature top_k md u ctx Hbs Hctx) as (lgs & _ & _ & H).
  eexists. exact H.
Qed.

Lemma sample_from_spec (cfg : GPTConfig) (p : Params) (temperature : R) (top_k : option nat)
  (md : mode) (rng : nat -> R) (Hbs : (0 < block_size cfg)%nat) :
  forall N k ctx, ctx <> [] ->
  exists gen, sample_from cfg p temperature top_k md rng N k ctx = Ok (ctx ++ gen) /\
    List.length gen = N /\
    forall i, (i < N)%nat ->
      next_token cfg p temperature top_k md (rng (k + i)%nat) (ctx ++ firstn i gen)
      = Ok (nth i gen 0%nat).
Proof.
  induction N as [|N IH]; intros k ctx Hctx.
  - exists []. split; [rewrite app_nil_r; reflexivity|]. split; [reflexivity|].
    intros i Hi. lia.
  - destruct (next_token_some cfg p temperature top_k md (rng k) ctx Hbs Hctx) as [t Ht].
    destruct (IH (S k) (ctx ++ [t])) as (gen & Hs & Hl & Hstep).
    { intros E. apply app_eq_nil in E. destruct E as [E _]. congruence. }
    exists (t :: gen). split; [|split].
    + cbn [sample_from]. rewrite Ht. cbn [bind]. rewrite Hs, <- app_assoc. reflexivity.
    + cbn [List.length]. rewrite Hl. reflexivity.
    + intros i Hi. destruct i as [|i].
      * cbn [firstn nth]. rewrite Nat.add_0_r, app_nil_r. exact Ht.
      * cbn [firstn nth]. replace (k + S i)%nat with (S k + i)%nat by lia.
        replace (ctx ++ t :: firstn i gen) with ((ctx ++ [t]) ++ firstn i gen)
          by (rewrite <- app_assoc; reflexivity).
        apply Hstep. lia.
Qed.

(** Two sampling runs agree when their steps agree on every context. *)
Lemma sample_from_ext (cfg : GPTConfig) (p : Params) (temperature : R)
  (tk1 tk2 : option nat) (md1 md2 : mode) (rng1 rng2 : nat -> R) :
  forall N k ctx,
  (forall i c, (i < N)%nat ->
     next_token cfg p temperature tk1 md1 (rng1 (k + i)%nat) c =
     next_token cfg p temperature tk2 md2 (rng2 (k + i)%nat) c) ->
  sample_from cfg p temperature tk1 md1 rng1 N k ctx =
  sample_from cfg p temperature tk2 md2 rng2 N k ctx.
Proof.
  induction N as [|N IH]; intros k ctx H; [reflexivity|].
  cbn [sample_from].
  assert (E := H 0%nat ctx (Nat.lt_0_succ N)). rewrite Nat.add_0_r in E. rewrite E.
  destruct (next_token cfg p temperature tk2 md2 (rng2 k) ctx) as [t|e]; cbn [bind];
    [|reflexivity].
  apply IH. intros i c Hi. replace (S k + i)%nat with (k + S i)%nat by lia.
  apply H. lia.
Qed.

(** Greedy steps do not read the random number. *)
Lemma next_token_greedy (cfg : GPTConfig) (p : Params) (temperature : R) (top_k : option nat)
  (u u' : R) (ctx : list nat) :
  next_token cfg p temperature top_k Greedy u ctx = next_token cfg p temperature top_k Greedy u' ctx.
Proof.
  unfold next_token. destruct (gpt cfg p (crop (block_size cfg) ctx)) as [lgs|e]; cbn [bind];
    [|reflexivity].
  destruct (last_opt lgs); reflexivity.
Qed.

(** [argmax] only compares entries, so a strictly increasing map keeps it. *)
Lemma argmax_from_map (f : R -> R) (Hf : forall a b, a < b <-> f a < f b) :
  forall l j best bv, argmax_from (map f l) j best (f bv) = argmax_from l j best bv.
Proof.
  induction l as [|v l IH]; intros j best bv; [reflexivity|].
  cbn [map argmax_from].
  destruct (Rlt_dec (f bv) (f v)) as [H|H]; destruct (Rlt_dec bv v) as [H'|H'].
  - apply IH.
  - exfalso. apply H'. apply (proj2 (Hf bv v)). exact H.
  - exfalso. apply H. apply (proj1 (Hf bv v)). exact H'.
  - apply IH.
Qed.

Lemma argmax_map (f : R -> R) (Hf : forall a b, a < b <-> f a < f b) (l : list R) :
  argmax (map f l) = argmax l.
Proof. destruct l as [|v l]; [reflexivity|]. apply argmax_from_map. exact Hf. Qed.

Lemma vsum_exp_nonneg (l : list R) : 0 <= vsum (map exp l).
Proof.
  induction l as [|a l IH]; cbn [map vsum fold_right]; [lra|].
  unfold vsum in IH. pose proof (exp_pos a). lra.
Qed.

Lemma vsum_exp_pos (l : list R) : l <> [] -> 0 < vsum (map exp l).
Proof.
  destruct l as [|a l]; [congruence|]. intros _. cbn [map]. unfold vsum. cbn [fold_right].
  pose proof (vsum_exp_nonneg l) as H. unfold vsum in H. pose proof (exp_pos a). lra.
Qed.

Lemma softmax_fin (lg : list R) :
  softmax (map Fin lg) = map (fun v => exp v / vsum (map exp lg)) lg.
Proof. unfold softmax. rewrite !map_map. reflexivity. Qed.

(** Greedy decoding without the top-k filter picks the first maximal logit. *)
Lemma greedy_plain (lg : list R) : argmax (softmax (map Fin lg)) = argmax lg.
Proof.
  destruct lg as [|v l]; [reflexivity|].
  rewrite softmax_fin. apply argmax_map.
  assert (Hz : 0 < vsum (map exp (v :: l))) by (apply vsum_exp_pos; discriminate).
  set (z := vsum (map exp (v :: l))) in *.
  assert (HI : 0 < / z) by (apply Rinv_0_lt_compat; exact Hz).
  intros a b. unfold Rdiv. split; intros H.
  - apply Rmult_lt_compat_r; [exact HI|]. apply exp_increasing. exact H.
  - apply exp_lt_inv. apply (Rmult_lt_reg_r (/ z)); [exact HI|]. exact H.
Qed.

Lemma argmax_from_spec :
  forall l pre best bv,
  (best < List.length pre)%nat -> nth best pre 0 = bv ->
  (forall i, (i < List.length pre)%nat -> nth i pre 0 <= bv) ->
  (forall i, (i < best)%nat -> nth i pre 0 < bv) ->
  first_max (pre ++ l) (argmax_from l (List.length pre) best bv).
Proof.
  induction l as [|v l IH]; intros pre best bv Hb Hbv Hle Hlt.
  - cbn [argmax_from]. rewrite app_nil_r. subst bv.
    split; [exact Hb|]. split; [exact Hle | exact Hlt].
  - cbn [argmax_from].
    replace (pre ++ v :: l) with ((pre ++ [v]) ++ l) by (rewrite <- app_assoc; reflexivity).
    replace (S (List.length pre)) with (List.length (pre ++ [v]))
      by (rewrite length_app; cbn [List.length]; lia).
    assert (Hv : nth (List.length pre) (pre ++ [v]) 0 = v).
    { rewrite app_nth2 by lia. rewrite Nat.sub_diag. reflexivity. }
    destruct (Rlt_dec bv v) as [H|H].
    + apply IH.
      * rewrite length_app. cbn [List.length]. lia.
      * exact Hv.
      * intros i Hi. rewrite length_app in Hi. cbn [List.length] in Hi.
        destruct (Nat.lt_ge_cases i (List.length pre)) as [Hi'|Hi'].
        -- rewrite app_nth1 by exact Hi'. specialize (Hle i Hi'). lra.
        -- replace i with (List.length pre) by lia. rewrite Hv. lra.
      * intros i Hi. rewrite app_nth1 by exact Hi. specialize (Hle i Hi). lra.
    + apply IH.
      * rewrite length_app. cbn [List.length]. lia.
      * rewrite app_nth1 by exact Hb. exact Hbv.
      * intros i Hi. rewrite length_app in Hi. cbn [List.length] in Hi.
        destruct (Nat.lt_ge_cases i (List.length pre)) as [Hi'|Hi'].
        -- rewrite app_nth1 by exact Hi'. apply Hle. exact Hi'.
        -- replace i with (List.length pre) by lia. rewrite Hv. lra.
      * intros i Hi. rewrite app_nth1 by lia. apply Hlt. exact Hi.
Qed.

Lemma argmax_spec (l : list R) : l <> [] -> first_max l (argmax l).
Proof.
  destruct l as [|v l]; [congruence|]. intros _.
  pose proof (argmax_from_spec l [v] 0 v) as H. cbn [List.length app] in H.
  apply H; [lia | reflexivity | |].
  - intros i Hi. destruct i as [|i]; [cbn [nth]; lra | lia].
  - intros i Hi. lia.
Qed.

Lemma first_max_unique (l : list R) (m m' : nat) :
  first_max l m -> first_max l m' -> m = m'.
Proof.
  intros (Hm & Hlem & Hltm) (Hm' & Hlem' & Hltm').
  destruct (lt_eq_lt_dec m m') as [[H|H]|H]; [|exact H|].
  - specialize (Hltm' m H). specialize (Hlem m' Hm'). lra.
  - specialize (Hltm m' H). specialize (Hlem' m Hm). lra.
Qed.

Section TopOne.
Variable lg : list R.
Variable m : nat.
Hypothesis Hm : first_max lg m.

Lemma beats_max (i : nat) : (i < List.length lg)%nat -> beats lg i m = false.
Proof.
  intros Hi. destruct Hm as (_ & Hle & Hlt). unfold beats.
  destruct (Rlt_dec (nth m lg 0) (nth i lg 0)) as [H|H].
  - specialize (Hle i Hi). lra.
  - destruct (Req_EM_T (nth i lg 0) (nth m lg 0)) as [E|E]; [|reflexivity].
    destruct (Nat.ltb_spec i m) as [Him|Him]; [|reflexivity].
    specialize (Hlt i Him). lra.
Qed.

Lemma max_beats (j : nat) : (j < List.length lg)%nat -> j <> m -> beats lg m j = true.
Proof.
  intros Hj Hjm. destruct Hm as (Hml & Hle & Hlt). unfold beats.
  destruct (Rlt_dec (nth j lg 0) (nth m lg 0)) as [H|H]; [reflexivity|].
  destruct (Nat.lt_ge_cases j m) as [Hjm'|Hjm'].
  - specialize (Hlt j Hjm'). lra.
  - specialize (Hle j Hj).
    destruct (Req_EM_T (nth m lg 0) (nth j lg 0)) as [E|E]; [|lra].
    apply Nat.ltb_lt. lia.
Qed.

Lemma rank_max : rank lg m = 0%nat.
Proof.
  unfold rank.
  destruct (filter (fun i => beats lg i m) (seq 0 (List.length lg))) as [|i l] eqn:E;
    [reflexivity|].
  exfalso.
  assert (Hin : In i (filter (fun i => beats lg i m) (seq 0 (List.length lg))))
    by (rewrite E; left; reflexivity).
  apply filter_In in Hin. destruct Hin as [Hin Hb]. apply in_seq in Hin.
  rewrite beats_max in Hb; [discriminate | lia].
Qed.

Lemma rank_other (j : nat) : (j < List.length lg)%nat -> j <> m -> (1 <= rank lg j)%nat.
Proof.
  intros Hj Hjm. unfold rank.
  destruct (filter (fun i => beats lg i j) (seq 0 (List.length lg))) as [|i l] eqn:E;
    [|cbn [List.length]; lia].
  exfalso.
  assert (Hin : In m (filter (fun i => beats lg i j) (seq 0 (List.length lg)))).
  { apply filter_In. split; [apply in_seq; destruct Hm; lia | apply max_beats; assumption]. }
  rewrite E in Hin. exact Hin.
Qed.

Lemma top1_mask :
  top_k_mask 1 lg =
  map (fun j => if (j =? m)%nat then Fin (nth j lg 0) else NegInf) (seq 0 (List.length lg)).
Proof.
  unfold top_k_mask. apply map_ext_in. intros j Hj. apply in_seq in Hj.
  destruct (Nat.eqb_spec j m) as [E|Hjm].
  - subst j. rewrite rank_max. reflexivity.
  - pose proof (rank_other j ltac:(lia) Hjm) as H.
    destruct (Nat.ltb_spec (rank lg j) 1); [lia | reflexivity].
Qed.

End TopOne.

Lemma vsum_ind_out (m : nat) (a : R) :
  forall n s, (m < s)%nat ->
  vsum (map (fun j => if (j =? m)%nat then a else 0) (seq s n)) = 0.
Proof.
  induction n as [|n IH]; intros s Hs; [reflexivity|].
  cbn [seq map]. unfold vsum. cbn [fold_right]. fold (vsum (map (fun j => if (j =? m)%nat then a else 0) (seq (S s) n))).
  rewrite IH by lia. destruct (Nat.eqb_spec s m); [lia | lra].
Qed.

Lemma vsum_ind_in (m : nat) (a : R) :
  forall n s, (s <= m < s + n)%nat ->
  vsum (map (fun j => if (j =? m)%nat then a else 0) (seq s n)) = a.
Proof.
  induction n as [|n IH]; intros s Hs; [lia|].
  cbn [seq map]. unfold vsum. cbn [fold_right]. fold (vsum (map (fun j => if (j =? m)%nat then a else 0) (seq (S s) n))).
  destruct (Nat.eqb_spec s m) as [<-|Hsm].
  - rewrite vsum_ind_out by lia. lra.
  - rewrite IH by lia. lra.
Qed.

Lemma inv_cdf_ind (m : nat) (u : R) (Hu : 0 <= u < 1) :
  forall n s, (s <= m < s + n)%nat ->
  inv_cdf u 0 s (map (fun j => if (j =? m)%nat then 1 else 0) (seq s n)) = m.
Proof.
  induction n as [|n IH]; intros s Hs; [lia|].
  cbn [seq map inv_cdf].
  destruct (Nat.eqb_spec s m) as [<-|Hsm].
  - destruct (Rlt_dec u (0 + 1)) as [_|H]; [reflexivity | lra].
  - destruct (Rlt_dec u (0 + 0)) as [H|_]; [lra|].
    replace (0 + 0) with 0 by lra. apply IH. lia.
Qed.

Lemma nth_ind (m n j : nat) : (j < n)%nat ->
  nth j (map (fun i => if (i =? m)%nat then 1 else 0) (seq 0 n)) 0 = if (j =? m)%nat then 1 else 0.
Proof.
  intros Hj.
  pose proof (map_nth (fun i => if (i =? m)%nat then 1 else 0) (seq 0 n) 0%nat j) as H.
  cbv beta in H. rewrite seq_nth, Nat.add_0_l in H by exact Hj.
  rewrite <- H. apply nth_indep. rewrite length_map, length_seq. exact Hj.
Qed.

Lemma argmax_ind (m n : nat) : (m < n)%nat ->
  argmax (map (fun j => if (j =? m)%nat then 1 else 0) (seq 0 n)) = m.
Proof.
  intros Hmn.
  set (ind := map (fun j => if (j =? m)%nat then 1 else 0) (seq 0 n)).
  assert (Hlen : List.length ind = n) by (unfold ind; rewrite length_map, length_seq; reflexivity).
  apply (first_max_unique ind).
  - apply argmax_spec. intros E. rewrite E in Hlen. cbn [List.length] in Hlen. lia.
  - unfold first_max. rewrite Hlen. unfold ind. rewrite (nth_ind m n m Hmn), Nat.eqb_refl.
    split; [exact Hmn|]. split.
    + intros j Hj. rewrite (nth_ind m n j Hj). destruct (j =? m)%nat; lra.
    + intros j Hj. rewrite (nth_ind m n j ltac:(lia)).
      destruct (Nat.eqb_spec j m); [lia | lra].
Qed.

(** With the top-1 filter the distribution is the indicator of the first
    maximal logit, so the draw and the argmax both return that token. *)
Lemma top1_choice (lg : list R) (u : R) (Hu : 0 <= u < 1) :
  argmax (softmax (top_k_mask 1 lg)) = argmax lg /\
  inv_cdf u 0 0 (softmax (top_k_mask 1 lg)) = argmax lg.
Proof.
  destruct lg as [|v l]; [split; reflexivity|].
  set (lg := v :: l).
  assert (Hne : lg <> []) by discriminate.
  pose proof (argmax_spec lg Hne) as Hm. set (m := argmax lg) in *.
  assert (Hml : (m < List.length lg)%nat) by (destruct Hm; assumption).
  assert (Hsm : softmax (top_k_mask 1 lg) =
                map (fun j => if (j =? m)%nat then 1 else 0) (seq 0 (List.length lg))).
  { rewrite (top1_mask lg m Hm). unfold softmax. rewrite !map_map.
    assert (Hz : vsum (map (fun x => xexp (if (x =? m)%nat then Fin (nth x lg 0) else NegInf))
                       (seq 0 (List.length lg))) = exp (nth m lg 0)).
    { rewrite <- (vsum_ind_in m (exp (nth m lg 0)) (List.length lg) 0) by lia.
      f_equal. apply map_ext. intros j. destruct (Nat.eqb_spec j m) as [->|]; reflexivity. }
    rewrite Hz. apply map_ext. intros j. destruct (Nat.eqb_spec j m) as [->|].
    - cbn [xexp]. field. apply Rgt_not_eq. apply exp_pos.
    - cbn [xexp]. unfold Rdiv. apply Rmult_0_l. }
  rewrite Hsm. split.
  - apply argmax_ind. exact Hml.
  - apply inv_cdf_ind; [exact Hu | lia].
Qed.

(** A top-1 step, drawn or greedy, takes the same token as a greedy step
    without the filter. *)
Lemma next_token_top1 (cfg : GPTConfig) (p : Params) (temperature : R) (u u' : R)
  (ctx : list nat) (Hu : 0 <= u < 1) :
  next_token cfg p temperature (Some 1%nat) Stochastic u ctx =
    next_token cfg p temperature None Greedy u' ctx /\
  next_token cfg p temperature (Some 1%nat) Greedy u' ctx =
    next_token cfg p temperature None Greedy u' ctx.
Proof.
  unfold next_token. destruct (gpt cfg p (crop (block_size cfg) ctx)) as [lgs|e]; cbn [bind];
    [|split; reflexivity].
  destruct (last_opt lgs) as [lg|]; [|split; reflexivity].
  cbv beta iota zeta.
  destruct (top1_choice (map (fun v => v / temperature) lg) u Hu) as [H1 H2].
  rewrite H1, H2, greedy_plain. split; reflexivity.
Qed.

End SamplerFacts.

(* ------------------------------------------------------------------------- *)
(** ** Lemmas on init_params *)

Module InitExt.
Import GPT Init.
Local Open Scope R_scope.

Lemma rbind_ext {A B} (m1 m2 : Rand A) (k1 k2 : A -> Rand B) (c : nat) :
  (forall c', m1 c' = m2 c') -> (forall a c', k1 a c' = k2 a c') ->
  rbind m1 k1 c = rbind m2 k2 c.
Proof. intros Hm Hk. unfold rbind. rewrite Hm. destruct (m2 c). apply Hk. Qed.

Section SameStream.
Variables draw1 draw2 : nat -> nat -> R.
Variable seed : nat.
Hypothesis Hdraw : forall k, draw1 seed k = draw2 seed k.

Lemma rvec_ext : forall n c, rvec draw1 seed n c = rvec draw2 seed n c.
Proof.
  induction n as [|n IH]; intros c; [reflexivity|]. cbn [rvec].
  apply rbind_ext; [intros c'; unfold rnum; rewrite Hdraw; reflexivity|].
  intros a c'. apply rbind_ext; [exact IH | reflexivity].
Qed.

Lemma rmat_ext : forall rows cols c, rmat draw1 seed rows cols c = rmat draw2 seed rows cols c.
Proof.
  induction rows as [|r IH]; intros cols c; [reflexivity|]. cbn [rmat].
  apply rbind_ext; [apply rvec_ext|].
  intros a c'. apply rbind_ext; [apply IH | reflexivity].
Qed.

Lemma rlist_ext {A} (m1 m2 : Rand A) (Hm : forall c, m1 c = m2 c) :
  forall n c, rlist n m1 c = rlist n m2 c.
Proof.
  induction n as [|n IH]; intros c; [reflexivity|]. cbn [rlist].
  apply rbind_ext; [exact Hm|].
  intros a c'. apply rbind_ext; [exact IH | reflexivity].
Qed.

Lemma rhead_ext (cfg : GPTConfig) : forall c, rhead draw1 seed cfg c = rhead draw2 seed cfg c.
Proof.
  intros c. unfold rhead.
  apply rbind_ext; [apply rmat_ext|]. intros q c1.
  apply rbind_ext; [apply rmat_ext|]. intros k c2.
  apply rbind_ext; [apply rmat_ext|]. intros v c3. reflexivity.
Qed.

Lemma rblock_ext (cfg : GPTConfig) : forall c, rblock draw1 seed cfg c = rblock draw2 seed cfg c.
Proof.
  intros c. unfold rblock.
  apply rbind_ext; [apply rlist_ext, rhead_ext|]. intros hs c1.
  apply rbind_ext; [apply rmat_ext|]. intros w c2.
  apply rbind_ext; [apply rmat_ext|]. intros f1 c3.
  apply rbind_ext; [apply rmat_ext|]. intros f2 c4. reflexivity.
Qed.

Lemma rparams_ext (cfg : GPTConfig) : forall c, rparams draw1 seed cfg c = rparams draw2 seed cfg c.
Proof.
  intros c. unfold rparams.
  apply rbind_ext; [apply rmat_ext|]. intros te c1.
  apply rbind_ext; [apply rmat_ext|]. intros pe c2.
  apply rbind_ext; [apply rlist_ext, rblock_ext|]. intros bs c3.
  apply rbind_ext; [apply rmat_ext|]. intros hd c4. reflexivity.
Qed.

End SameStream.

End InitExt.

(* ------------------------------------------------------------------------- *)
(** ** The sampler: claims *)

Module SamplerClaims.
Import GPT Sampler SamplerFacts.
Local Open Scope R_scope.

(** C4: for a non-empty prompt and a block size above 0, [sample] returns the
    prompt followed by exactly [N] new tokens.  Step [k] runs on the prompt
    followed by the first [k] generated tokens (so no earlier token is
    removed or changed): it crops that context to its last [block_size]
    tokens, runs the forward pass on it, takes the logits at the last
    position, divides them by the temperature, applies the optional top-k
    filter and the softmax, and picks the token by argmax (greedy) or by
    inverting the cumulative distribution at the [k]-th random number. *)
Theorem sample_contract (cfg : GPTConfig) (p : Params) (x : list nat) (N : nat)
  (temperature : R) (md : mode) (top_k : option nat) (rng : nat -> R)
  (Hbs : (0 < block_size cfg)%nat) (Hx : x <> []) :
  exists gen, sample p cfg x N temperature md top_k rng = Ok (x ++ gen) /\
    List.length gen = N /\
    forall k, (k < N)%nat ->
      let ctx := x ++ firstn k gen in
      crop (block_size cfg) ctx = skipn (List.length ctx - block_size cfg) ctx /\
      next_token cfg p temperature top_k md (rng k) ctx = Ok (nth k gen 0%nat) /\
      exists lgs, gpt cfg p (crop (block_size cfg) ctx) = Ok lgs /\
        List.length lgs = Nat.min (List.length ctx) (block_size cfg) /\
        nth k gen 0%nat =
          (let lg := map (fun v => v / temperature) (last lgs []) in
           let probs := softmax (match top_k with
                                 | None => map Fin lg
                                 | Some kk => top_k_mask kk lg end) in
           match md with Greedy => argmax probs | Stochastic => inv_cdf (rng k) 0 0 probs end).
Proof.
  destruct (sample_from_spec cfg p temperature top_k md rng Hbs N 0 x Hx)
    as (gen & Hs & Hl & Hstep).
  exists gen. split; [exact Hs|]. split; [exact Hl|].
  intros k Hk ctx.
  assert (Hctx : ctx <> []).
  { unfold ctx. intros E. apply app_eq_nil in E. destruct E as [E _]. congruence. }
  pose proof (Hstep k Hk) as Hk'. rewrite Nat.add_0_l in Hk'.
  change (x ++ firstn k gen) with ctx in Hk'.
  split; [apply crop_last|]. split; [exact Hk'|].
  destruct (next_token_ok cfg p temperature top_k md (rng k) ctx Hbs Hctx)
    as (lgs & Hg & Hlen & Hnt).
  exists lgs. split; [exact Hg|]. split; [exact Hlen|].
  rewrite Hk' in Hnt. injection Hnt as E. exact E.
Qed.

Lemma sample_contract_witness :
  ((0 < block_size Examples.cfg0)%nat /\ [0%nat] <> []) /\
  exists gen, sample Examples.p0 Examples.cfg0 [0%nat] 2 1 Greedy None (fun _ => 0)
              = Ok ([0%nat] ++ gen) /\ List.length gen = 2%nat.
Proof.
  assert (H1 : (0 < block_size Examples.cfg0)%nat) by (cbn; lia).
  assert (H2 : [0%nat] <> []) by discriminate.
  split; [split; assumption|].
  destruct (sample_contract Examples.cfg0 Examples.p0 [0%nat] 2 1 Greedy None (fun _ => 0) H1 H2)
    as (gen & Hs & Hl & _).
  exists gen. split; assumption.
Defined.

(** C5: when every random number lies in [0, 1), stochastic sampling with
    [top_k = 1] returns the same result as greedy sampling, with or without
    the top-1 filter, whatever random numbers the greedy run is given.  (The
    top-1 filter and the argmax both break ties towards the lower id.) *)
Theorem top1_sampling_is_greedy (cfg : GPTConfig) (p : Params) (x : list nat) (N : nat)
  (temperature : R) (rng rng' : nat -> R) (Hu : forall n, 0 <= rng n < 1) :
  sample p cfg x N temperature Stochastic (Some 1%nat) rng =
    sample p cfg x N temperature Greedy None rng' /\
  sample p cfg x N temperature Stochastic (Some 1%nat) rng =
    sample p cfg x N temperature Greedy (Some 1%nat) rng'.
Proof.
  unfold sample.
  assert (E1 : sample_from cfg p temperature (Some 1%nat) Stochastic rng N 0 x =
               sample_from cfg p temperature None Greedy rng' N 0 x).
  { apply sample_from_ext. intros i c _.
    apply (proj1 (next_token_top1 cfg p temperature _ _ c (Hu _))). }
  split; [exact E1|]. rewrite E1. symmetry.
  apply sample_from_ext. intros i c _.
  apply (proj2 (next_token_top1 cfg p temperature (rng 0%nat) (rng' (0 + i)%nat) c (Hu 0%nat))).
Qed.

Lemma top1_sampling_is_greedy_witness :
  (forall n : nat, 0 <= / 2 < 1) /\
  sample Examples.p0 Examples.cfg0 [0%nat] 3 1 Stochastic (Some 1%nat) (fun _ => / 2) =
    sample Examples.p0 Examples.cfg0 [0%nat] 3 1 Greedy None (fun _ => 0).
Proof.
  assert (Hu : forall n : nat, 0 <= / 2 < 1) by (intros _; lra).
  split; [exact Hu|].
  exact (proj1 (top1_sampling_is_greedy Examples.cfg0 Examples.p0 [0%nat] 3 1
                  (fun _ => / 2) (fun _ => 0) Hu)).
Defined.

(** C6: determinism.  [init_params] is a function of the configuration and
    the seeded source; it reads only the stream of its seed, so two sources
    that agree on that stream (in particular the same source twice) give the
    same parameters for the same configuration and seed.  Greedy
    sampling does not read the random numbers, so two greedy calls with the
    same parameters and prompt give the same result; and two sampling calls
    in any mode given the same first [N] random numbers give the same
    result. *)
Theorem determinism :
  (forall draw1 draw2 cfg seed, (forall k, draw1 seed k = draw2 seed k) ->
     Init.init_params draw1 cfg seed = Init.init_params draw2 cfg seed) /\
  (forall cfg p x N temperature top_k rng1 rng2,
     sample p cfg x N temperature Greedy top_k rng1 =
     sample p cfg x N temperature Greedy top_k rng2) /\
  (forall cfg p x N temperature md top_k rng1 rng2,
     (forall k, (k < N)%nat -> rng1 k = rng2 k) ->
     sample p cfg x N temperature md top_k rng1 =
     sample p cfg x N temperature md top_k rng2).
Proof.
  split; [|split].
  - intros draw1 draw2 cfg seed H. unfold Init.init_params.
    rewrite (InitExt.rparams_ext draw1 draw2 seed H cfg 0). reflexivity.
  - intros cfg p x N temperature top_k rng1 rng2. unfold sample.
    apply sample_from_ext. intros i c _. apply next_token_greedy.
  - intros cfg p x N temperature md top_k rng1 rng2 H. unfold sample.
    apply sample_from_ext. intros i c Hi. rewrite Nat.add_0_l, (H i Hi). reflexivity.
Qed.

Lemma determinism_witness :
  (forall k, Examples.draw0 42 k = Examples.draw0 42 k) /\
  Init.init_params Examples.draw0 Examples.cfg0 42 =
    Init.init_params (fun s k => if (s =? 42)%nat then Examples.draw0 s k else 0)
      Examples.cfg0 42 /\
  sample Examples.p0 Examples.cfg0 [0%nat] 2 1 Stochastic None (fun k => INR k / 3) =
    sample Examples.p0 Examples.cfg0 [0%nat] 2 1 Stochastic None
      (fun k => if (k <? 2)%nat then INR k / 3 else 0).
Proof.
  destruct determinism as (Hinit & _ & Hstoch).
  split; [reflexivity|]. split.
  - apply Hinit. intros k. reflexivity.
  - apply Hstoch. intros k Hk. apply Nat.ltb_lt in Hk. rewrite Hk. reflexivity.
Defined.

End SamplerClaims.

(* ------------------------------------------------------------------------- *)
(** ** The trainer: claims *)

Module TrainerClaims.
Import GPT Schedule Trainer.
Local Open Scope R_scope.

Lemma eval_epoch_frame (cfg : GPTConfig) (s s' : TrainState) (d : list batch) :
  eval_epoch cfg s d = Ok s' ->
  params s' = params s /\ opt_state s' = opt_state s /\ tokens s' = tokens s /\ epoch s' = epoch s.
Proof.
  unfold eval_epoch. destruct (eval_loss cfg (params s) d) as [l|e]; cbn [bind]; intros H;
    [|discriminate].
  injection H as <-. cbn. auto.
Qed.

(** C8: the held-out evaluation leaves the parameters (and the optimizer
    state and the token count) as they are; so do the end of an epoch and
    every step of the trainer that is not an update; a run of the trainer
    with no update step ends with the parameters it started with; and an
    epoch ends with the parameters its last update produced.  The forward
    pass and [sample] return logits and tokens only. *)
Theorem params_frame (cfg : GPTConfig) (tc : TrainerConfig) (grad : Params -> batch -> Params)
  (clip : R -> Params -> Params)
  (update : R -> Params -> OptState -> Params -> Params * OptState) :
  (forall s d s', eval_epoch cfg s d = Ok s' ->
     params s' = params s /\ opt_state s' = opt_state s /\ tokens s' = tokens s) /\
  (forall s, params (end_epoch s) = params s) /\
  (forall s e s', tstep cfg tc grad clip update s e s' -> is_update e = false ->
     params s' = params s) /\
  (forall s evs s', tsteps cfg tc grad clip update s evs s' ->
     forallb (fun e => negb (is_update e)) evs = true -> params s' = params s) /\
  (forall s train test s', run_epoch cfg tc grad clip update s train test = Ok s' ->
     exists s1, run_batches cfg tc grad clip update s train = Ok s1 /\ params s' = params s1).
Proof.
  assert (Hstep : forall s e s', tstep cfg tc grad clip update s e s' -> is_update e = false ->
                  params s' = params s).
  { intros s e s' H Hu. destruct H as [s b s' _|s d s' H|s].
    - discriminate.
    - apply (eval_epoch_frame cfg s s' d H).
    - reflexivity. }
  split; [|split; [|split; [exact Hstep|split]]].
  - intros s d s' H. destruct (eval_epoch_frame cfg s s' d H) as (H1 & H2 & H3 & _). auto.
  - intros s. reflexivity.
  - intros s evs s' H. induction H as [s|s e s1 evs s2 H1 H2 IH]; intros Hf; [reflexivity|].
    cbn [forallb] in Hf. apply andb_prop in Hf. destruct Hf as [He Hf].
    rewrite (IH Hf). apply (Hstep s e s1 H1). destruct (is_update e); [discriminate|reflexivity].
  - intros s train test s' H. unfold run_epoch in H.
    destruct (run_batches cfg tc grad clip update s train) as [s1|e]; cbn [bind] in H;
      [|discriminate].
    exists s1. split; [reflexivity|].
    destruct test as [d|]; cbn [bind] in H.
    + destruct (eval_epoch cfg s1 d) as [s2|e] eqn:E; cbn [bind] in H; [|discriminate].
      injection H as <-. cbn [end_epoch params].
      apply (eval_epoch_frame cfg s1 s2 d E).
    + injection H as <-. reflexivity.
Qed.

Lemma params_frame_witness :
  params (end_epoch Examples.s0) = params Examples.s0 /\
  (tsteps Examples.cfg0 Examples.tc_ex Examples.grad0 Examples.clip0 Examples.update0
     Examples.s0 [EvEpochEnd; EvEpochEnd] (end_epoch (end_epoch Examples.s0)) /\
   forallb (fun e => negb (is_update e)) [EvEpochEnd; EvEpochEnd] = true) /\
  params (end_epoch (end_epoch Examples.s0)) = params Examples.s0.
Proof.
  destruct (params_frame Examples.cfg0 Examples.tc_ex Examples.grad0 Examples.clip0
              Examples.update0) as (_ & Hend & _ & Hsteps & _).
  assert (Ht : tsteps Examples.cfg0 Examples.tc_ex Examples.grad0 Examples.clip0 Examples.update0
                 Examples.s0 [EvEpochEnd; EvEpochEnd] (end_epoch (end_epoch Examples.s0))).
  { apply TCons with (end_epoch Examples.s0); [apply TEpochEnd|].
    apply TCons with (end_epoch (end_epoch Examples.s0)); [apply TEpochEnd | apply TNil]. }
  split; [apply Hend|]. split; [split; [exact Ht | reflexivity]|].
  apply (Hsteps _ _ _ Ht). reflexivity.
Defined.

End TrainerClaims.

(* ------------------------------------------------------------------------- *)
(** ** Lemmas on the dataset's items and on [give_exam] *)

Module ExamFacts.
Import Addition AdditionFacts Exam.
Local Set Warnings "-abstract-large-number".

Lemma decode_app (l : list Z) (d : Z) : decode (l ++ [d]) = (10 * decode l + d)%Z.
Proof. unfold decode. rewrite fold_left_app. reflexivity. Qed.

Lemma decode_acc (l : list Z) (acc : Z) :
  fold_left (fun acc d => 10 * acc + d)%Z l acc =
  (acc * 10 ^ Z.of_nat (List.length l) + fold_left (fun acc d => 10 * acc + d)%Z l 0)%Z.
Proof.
  revert acc. induction l as [|d l IH]; intros acc; cbn [fold_left List.length].
  - lia.
  - rewrite (IH (10 * acc + d)%Z), (IH (10 * 0 + d)%Z).
    rewrite Nat2Z.inj_succ, Z.pow_succ_r by lia. lia.
Qed.

Lemma decode_cons (d : Z) (l : list Z) :
  decode (d :: l) = (d * 10 ^ Z.of_nat (List.length l) + decode l)%Z.
Proof. unfold decode. cbn [fold_left]. rewrite decode_acc. lia. Qed.

(** The weighted sums of [give_exam] are the big-endian decimal values. *)
Lemma wsum_factors (ds : list Z) :
  wsum ds (rev (map (fun i => 10 ^ Z.of_nat i)%Z (seq 0 (List.length ds)))) = decode ds.
Proof.
  induction ds as [|d ds IH]; [reflexivity|].
  cbn [List.length]. rewrite seq_S, map_app, rev_app_distr. cbn [map rev app].
  rewrite decode_cons, <- IH. unfold wsum. cbn [combine map fold_right]. rewrite Nat.add_0_l. reflexivity.
Qed.

Lemma factors_tl (nd : nat) :
  tl (factors nd) = rev (map (fun i => 10 ^ Z.of_nat i)%Z (seq 0 nd)).
Proof.
  unfold factors. rewrite Nat.add_1_r, seq_S, map_app, rev_app_distr. reflexivity.
Qed.

Lemma wsum_head (ds : list Z) (nd : nat) : List.length ds = nd -> wsum ds (tl (factors nd)) = decode ds.
Proof. intros <-. rewrite factors_tl. apply wsum_factors. Qed.

Lemma wsum_all (ds : list Z) (nd : nat) : List.length ds = nd + 1 -> wsum ds (factors nd) = decode ds.
Proof. intros H. unfold factors. rewrite <- H. apply wsum_factors. Qed.

(** Digit lists of the same length with the same value are equal. *)
Lemma decode_inj (ds : list Z) :
  forall ds', Forall (fun d => (0 <= d < 10)%Z) ds -> Forall (fun d => (0 <= d < 10)%Z) ds' ->
  List.length ds = List.length ds' -> decode ds = decode ds' -> ds = ds'.
Proof.
  induction ds as [|d ds IH] using rev_ind; intros ds' H H' Hl He.
  - destruct ds'; [reflexivity | cbn in Hl; discriminate].
  - destruct ds' as [|d' ds''] using rev_ind;
      [rewrite length_app in Hl; cbn in Hl; lia|clear IHds''].
    rewrite !length_app in Hl. cbn [List.length] in Hl.
    apply Forall_app in H, H'. destruct H as [H Hd], H' as [H' Hd'].
    inversion Hd as [|? ? Hd0 _]; inversion Hd' as [|? ? Hd0' _]; subst.
    rewrite !decode_app in He.
    assert (Hdd : d = d') by lia. subst d'.
    assert (Hv : decode ds = decode ds'') by lia.
    rewrite (IH ds'' H H' ltac:(lia) Hv). reflexivity.
Qed.

Lemma last_skipn (l : list Z) (s : nat) (d : Z) : s < List.length l -> last (skipn s l) d = last l d.
Proof.
  revert l. induction s as [|s IH]; intros l Hs; [reflexivity|].
  destruct l as [|a l]; [cbn in Hs; lia|]. cbn [skipn]. cbn [List.length] in Hs.
  rewrite IH by lia. destruct l; [cbn in Hs; lia | reflexivity].
Qed.

(** The fields of an item: its prompt [x[:2*nd]] is the digits of [a] and
    [b], and the rest of [x] with the last target is the digits of [a + b]. *)
Lemma item_parts (nd p : nat) :
  1 <= nd -> p < (10 ^ nd) ^ 2 ->
  let x := fst (item nd p) in
  let y := snd (item nd p) in
  let da := map Z.of_nat (padded nd (p / 10 ^ nd)) in
  let db := map Z.of_nat (padded nd (p mod 10 ^ nd)) in
  let dc := map Z.of_nat (padded (nd + 1) (p / 10 ^ nd + p mod 10 ^ nd)) in
  firstn (nd * 2) x = da ++ db /\ List.length da = nd /\ List.length db = nd /\
  List.length dc = nd + 1 /\
  skipn (nd * 2) x ++ [last y 0%Z] = dc.
Proof.
  intros Hnd Hp x y da db dc.
  destruct (item_fields nd p Hnd Hp) as (HD & Hla & Hlb & Hlc).
  fold da db dc in HD, Hla, Hlb, Hlc.
  assert (Hdc : dc <> []) by (intros E; rewrite E in Hlc; cbn in Hlc; lia).
  assert (Hx : x = (da ++ db) ++ removelast dc).
  { unfold x, item. cbn [fst]. rewrite HD, app_assoc. apply removelast_app. exact Hdc. }
  assert (Hab : List.length (da ++ db) = nd * 2) by (rewrite length_app; lia).
  split; [|split; [exact Hla|split; [exact Hlb|split; [exact Hlc|]]]].
  - rewrite Hx, firstn_app, Hab, Nat.sub_diag, firstn_all2 by lia. cbn [firstn]. apply app_nil_r.
  - rewrite Hx, skipn_app, Hab, Nat.sub_diag, skipn_all2 by lia. cbn [app skipn].
    assert (Hy : last y 0%Z = last dc 0%Z).
    { unfold y, item. cbn [snd]. rewrite HD. unfold set_prefix.
      set (D := da ++ db ++ dc).
      assert (HlD : List.length (tl D) = 3 * nd).
      { unfold D. destruct da as [|a da']; [cbn in Hla; lia|].
        cbn [app tl]. rewrite !length_app. cbn in Hla. lia. }
      rewrite HlD.
      replace (if (Z.of_nat nd * 2 - 1 <? 0)%Z then Z.max 0 (Z.of_nat nd * 2 - 1 + Z.of_nat (3 * nd))
               else Z.min (Z.of_nat nd * 2 - 1) (Z.of_nat (3 * nd)))%Z
        with (Z.of_nat (nd * 2 - 1)).
      2:{ destruct (Z.ltb_spec (Z.of_nat nd * 2 - 1) 0); lia. }
      rewrite Nat2Z.id.
      rewrite last_app_nonempty.
      2:{ intros E. apply (f_equal (@List.length Z)) in E. rewrite length_skipn in E.
          cbn in E. lia. }
      rewrite last_skipn by lia.
      unfold D. destruct da as [|a da']; [cbn in Hla; lia|]. cbn [app tl].
      rewrite app_assoc, last_app_nonempty by exact Hdc. reflexivity. }
    rewrite Hy. symmetry. apply app_removelast_last. exact Hdc.
Qed.

Lemma ixes_nodup (perm : nat -> nat -> list nat) (nd : nat) (sp : string) :
  permutation_ok perm -> NoDup (ixes (init perm nd sp)).
Proof.
  intros Hperm.
  set (num := (10 ^ nd) ^ 2).
  assert (H : NoDup (perm 1337 num)).
  { apply (Permutation_NoDup (l := seq 0 num)); [symmetry; apply Hperm | apply seq_NoDup]. }
  rewrite <- (firstn_skipn (Nat.min (num / 5) 1000)) in H.
  unfold init. cbn [ixes]. fold num.
  destruct (String.eqb sp "test");
    [eapply NoDup_app_remove_r | eapply NoDup_app_remove_l]; exact H.
Qed.

Lemma NoDup_app_disjoint {A} (l1 l2 : list A) (a : A) :
  NoDup (l1 ++ l2) -> In a l1 -> In a l2 -> False.
Proof.
  induction l1 as [|b l1 IH]; intros H H1 H2; [destruct H1|].
  inversion H as [|? ? Hb Hn]; subst. destruct H1 as [<-|H1].
  - apply Hb. apply in_or_app. right. exact H2.
  - exact (IH Hn H1 H2).
Qed.

Lemma flat_map_nth {A B} (f : A -> B) (l : list A) :
  flat_map (fun i => match match nth_error l i with Some a => Some (f a) | None => None end with
                     | Some it => [it] | None => [] end) (seq 0 (List.length l)) = map f l.
Proof.
  induction l as [|a l IH]; [reflexivity|].
  cbn [List.length seq flat_map nth_error app map]. f_equal. rewrite <- seq_shift.
  rewrite <- IH. clear IH. generalize (seq 0 (List.length l)). intros s.
  induction s as [|k s IHs]; [reflexivity|]. cbn [map flat_map]. rewrite IHs. reflexivity.
Qed.

Lemma items_eq (ds : dataset) : items ds = map (item (ndigit ds)) (ixes ds).
Proof. unfold items, len, getitem. apply flat_map_nth. Qed.

Lemma firstn_len_app {A} (a b : list A) (n : nat) : List.length a = n -> firstn n (a ++ b) = a.
Proof. intros <-. rewrite firstn_app, Nat.sub_diag, firstn_all. apply app_nil_r. Qed.

Lemma skipn_len_app {A} (a b : list A) (n : nat) : List.length a = n -> skipn n (a ++ b) = b.
Proof. intros <-. rewrite skipn_app, Nat.sub_diag, skipn_all. reflexivity. Qed.

Lemma firstn_add {A} (n m : nat) (l : list A) :
  firstn (n + m) l = firstn n l ++ firstn m (skipn n l).
Proof.
  revert l. induction n as [|n IH]; intros l; [reflexivity|].
  destruct l as [|a l]; [destruct m; reflexivity|]. cbn. f_equal. apply IH.
Qed.

Lemma chunks_firstn {A} (bs : nat) (Hbs : 0 < bs) :
  forall fuel (l : list A) k, List.length l <= fuel ->
  List.concat (firstn k (chunks_fuel fuel bs l)) = firstn (k * bs) l.
Proof.
  induction fuel as [|f IH]; intros l k Hl.
  - destruct l; [|cbn in Hl; lia]. destruct k; [reflexivity|].
    cbn [chunks_fuel firstn List.concat]. rewrite firstn_nil. reflexivity.
  - destruct l as [|a l'].
    + destruct k; cbn [chunks_fuel firstn List.concat]; [reflexivity|].
      rewrite firstn_nil. reflexivity.
    + destruct k as [|k]; [reflexivity|].
      cbn [chunks_fuel]. cbn [firstn List.concat].
      rewrite IH.
      * replace (S k * bs) with (bs + k * bs) by lia. rewrite firstn_add. reflexivity.
      * rewrite length_skipn. cbn [List.length] in *. lia.
Qed.

Lemma exam_loop_firstn (samp : list Z -> list Z) (nd m : nat) :
  forall batches b, b < m ->
  exam_loop samp nd (Z.of_nat m) b batches =
  List.concat (map (map (exam_row samp nd)) (firstn (m - b) batches)).
Proof.
  induction batches as [|bt rest IH]; intros b Hb.
  - rewrite firstn_nil. reflexivity.
  - cbn [exam_loop].
    assert (H0 : (0 <=? Z.of_nat m)%Z = true) by (apply Z.leb_le; lia).
    rewrite H0, andb_true_l.
    destruct (Z.leb_spec (Z.of_nat m) (Z.of_nat (b + 1))) as [Hle|Hgt].
    + replace (m - b) with 1 by lia. cbn [firstn map List.concat]. reflexivity.
    + replace (m - b) with (S (m - S b)) by lia. cbn [firstn map List.concat].
      rewrite IH by lia. reflexivity.
Qed.

(** [give_exam] scores the first 10 batches of 1024 items, in order. *)
Lemma give_exam_eq (samp : list Z -> list Z) (nd : nat) (ds : dataset)
  (batch_size max_batches : Z) :
  give_exam samp nd ds batch_size max_batches =
    map (fun p => exam_row samp nd (item (ndigit ds) p)) (firstn 10240 (ixes ds)).
Proof.
  unfold give_exam. change 10%Z with (Z.of_nat 10).
  rewrite exam_loop_firstn by lia. rewrite Nat.sub_0_r.
  rewrite <- concat_map. unfold loader.
  change (Z.to_nat 1024) with 1024.
  rewrite (chunks_firstn 1024 ltac:(lia) (List.length (items ds)) (items ds) 10 (le_n _)).
  rewrite items_eq, firstn_map, map_map. reflexivity.
Qed.

Lemma in_firstn_in {A} (n : nat) (l : list A) (a : A) : In a (firstn n l) -> In a l.
Proof. intros H. rewrite <- (firstn_skipn n l). apply in_or_app. left. exact H. Qed.

Lemma map_const_1 {A} (f : A -> nat) (l : list A) :
  (forall a, In a l -> f a = 1) -> map f l = repeat 1 (List.length l).
Proof.
  induction l as [|a l IH]; intros H; [reflexivity|].
  cbn [map repeat List.length]. rewrite (H a (or_introl eq_refl)), IH; [reflexivity|].
  intros b Hb. apply H. right. exact Hb.
Qed.

Lemma length_map_padded (w n : nat) :
  1 <= w -> n < 10 ^ w -> List.length (map Z.of_nat (padded w n)) = w.
Proof. intros H1 H2. rewrite length_map. apply padded_length; assumption. Qed.

Lemma Forall_map_padded (w n : nat) :
  Forall (fun d => (0 <= d < 10)%Z) (map Z.of_nat (padded w n)).
Proof.
  rewrite Forall_map. eapply Forall_impl; [|apply padded_lt10]. cbn. intros v Hv. lia.
Qed.

(** The exam's judgement of one problem [p]. *)
Lemma exam_item_judge (nd p : nat) (Hnd : 1 <= nd) (Hb : p < (10 ^ nd) ^ 2) :
  let x := fst (item nd p) in
  let y := snd (item nd p) in
  let d1d2 := firstn (nd * 2) x in
  p / 10 ^ nd < 10 ^ nd /\ p mod 10 ^ nd < 10 ^ nd /\
  wsum (firstn nd d1d2) (tl (factors nd)) = Z.of_nat (p / 10 ^ nd) /\
  wsum (firstn (nd * 2 - nd) (skipn nd d1d2)) (tl (factors nd)) = Z.of_nat (p mod 10 ^ nd) /\
  skipn (nd * 2) x ++ [last y 0%Z] =
    map Z.of_nat (padded (nd + 1) (p / 10 ^ nd + p mod 10 ^ nd)) /\
  forall d3, List.length d3 = nd + 1 -> Forall (fun d => (0 <= d < 10)%Z) d3 ->
    (exam_correct nd d1d2 (d1d2 ++ d3) = true <->
     d3 = map Z.of_nat (padded (nd + 1) (p / 10 ^ nd + p mod 10 ^ nd))).
Proof.
  intros x y d1d2.
  destruct (item_parts nd p Hnd Hb) as (H2 & Hla & Hlb & Hlc & Hc).
  fold x y in H2, Hc.
  set (a := p / 10 ^ nd) in *. set (b := p mod 10 ^ nd) in *.
  assert (Hpos : 10 ^ nd <> 0) by (apply Nat.pow_nonzero; lia).
  fold d1d2 in H2.
  assert (Hf : firstn nd d1d2 = map Z.of_nat (padded nd a)).
  { rewrite H2, firstn_app, Hla, Nat.sub_diag, firstn_all2 by lia. cbn [firstn]. apply app_nil_r. }
  assert (Hs : firstn (nd * 2 - nd) (skipn nd d1d2) = map Z.of_nat (padded nd b)).
  { rewrite H2, skipn_app, Hla, Nat.sub_diag, skipn_all2 by lia. cbn [skipn app].
    apply firstn_all2. lia. }
  split; [|split].
  { apply Nat.Div0.div_lt_upper_bound. rewrite Nat.pow_2_r in Hb. exact Hb. }
  { apply Nat.mod_upper_bound. exact Hpos. }
  split; [rewrite Hf, wsum_head by exact Hla; rewrite decode_natval, padded_natval; reflexivity|].
  split; [rewrite Hs, wsum_head by exact Hlb; rewrite decode_natval, padded_natval; reflexivity|].
  split; [exact Hc|].
  intros d3 Hl3 Hd3.
  assert (Hd1 : List.length d1d2 = nd * 2)
    by (rewrite H2, length_app; lia).
  unfold exam_correct.
  assert (Hlast : last_n (nd + 1) (d1d2 ++ d3) = d3).
  { unfold last_n. rewrite length_app, Hl3, Hd1.
    replace (nd * 2 + (nd + 1) - (nd + 1)) with (List.length d1d2) by lia.
    rewrite skipn_app, Nat.sub_diag, skipn_all. reflexivity. }
  rewrite Hlast, Hf, Hs, wsum_all by exact Hl3.
  rewrite (wsum_head _ nd Hla), (wsum_head _ nd Hlb).
  rewrite !decode_natval, !padded_natval.
  assert (Hdc : decode (map Z.of_nat (padded (nd + 1) (a + b))) = Z.of_nat (a + b))
    by (rewrite decode_natval, padded_natval; reflexivity).
  rewrite Z.eqb_eq. split.
  - intros He. apply decode_inj.
    + exact Hd3.
    + rewrite Forall_map. eapply Forall_impl; [|apply padded_lt10]. cbn. intros v Hv. lia.
    + rewrite Hl3. symmetry. exact Hlc.
    + rewrite Hdc, He. lia.
  - intros ->. rewrite Hdc. lia.
Qed.


End ExamFacts.

(* ------------------------------------------------------------------------- *)
(** ** The addition dataset and its exam: further properties *)

Module DatasetExtras.
Import Addition AdditionFacts Exam ExamFacts Examples.
Local Set Warnings "-abstract-large-number".

(** The split: the "test" indices and the indices of any other split name
    (the code takes every name but "test" as the training split) together
    are a permutation of all [(10^ndigit)^2] problems, so no problem is in
    both splits and every problem is in one; the test split has
    [min(num/5, 1000)] problems and the other the rest. *)
Theorem split_partition (perm : nat -> nat -> list nat) (Hperm : permutation_ok perm)
  (nd : nat) (sp : string) (Hsp : sp <> "test"%string) :
  let num := (10 ^ nd) ^ 2 in
  Permutation (ixes (init perm nd "test") ++ ixes (init perm nd sp)) (seq 0 num) /\
  (forall q, In q (ixes (init perm nd "test")) -> ~ In q (ixes (init perm nd sp))) /\
  len (init perm nd "test") = Nat.min (num / 5) 1000 /\
  len (init perm nd sp) = num - Nat.min (num / 5) 1000.
Proof.
  intros num.
  assert (Et : ixes (init perm nd "test") = firstn (Nat.min (num / 5) 1000) (perm 1337 num))
    by reflexivity.
  assert (Es : ixes (init perm nd sp) = skipn (Nat.min (num / 5) 1000) (perm 1337 num)).
  { unfold init. cbn [ixes]. apply String.eqb_neq in Hsp. rewrite Hsp. reflexivity. }
  assert (HP : Permutation (perm 1337 num) (seq 0 num)) by apply Hperm.
  assert (HL : List.length (perm 1337 num) = num)
    by (rewrite (Permutation_length HP), length_seq; reflexivity).
  assert (HPerm : Permutation (ixes (init perm nd "test") ++ ixes (init perm nd sp)) (seq 0 num))
    by (rewrite Et, Es, firstn_skipn; exact HP).
  split; [exact HPerm|]. split; [|split].
  - intros q Hq Hq'.
    apply (NoDup_app_disjoint _ _ q (Permutation_NoDup (Permutation_sym HPerm) (seq_NoDup _ _)) Hq Hq').
  - unfold len. rewrite Et, length_firstn, HL.
    assert (num / 5 <= num) by (apply Nat.Div0.div_le_upper_bound; lia). lia.
  - unfold len. rewrite Es, length_skipn, HL. reflexivity.
Qed.

Lemma split_partition_witness :
  (permutation_ok id_perm /\ "train"%string <> "test"%string) /\
  len (init id_perm 1 "test") = 20 /\ len (init id_perm 1 "train") = 80.
Proof.
  assert (H1 : permutation_ok id_perm) by (intros seed num; apply Permutation_refl).
  assert (H2 : "train"%string <> "test"%string) by discriminate.
  split; [split; assumption|].
  destruct (split_partition id_perm H1 1 "train" H2) as (_ & _ & Ht & Hs).
  split; [rewrite Ht | rewrite Hs]; reflexivity.
Defined.

(** Two items of a dataset with the same input [x] are the same item
    ([ndigit >= 1]): [x] starts with the digits of [a] and [b], which fix the
    problem, and a split holds each problem once. *)
Theorem item_inputs_distinct (perm : nat -> nat -> list nat) (Hperm : permutation_ok perm)
  (nd : nat) (sp : string) (Hnd : 1 <= nd) (i j : nat) (x y x' y' : list Z)
  (Hi : getitem (init perm nd sp) i = Some (x, y))
  (Hj : getitem (init perm nd sp) j = Some (x', y')) (Hx : x = x') :
  i = j.
Proof.
  unfold getitem in Hi, Hj.
  destruct (nth_error (ixes (init perm nd sp)) i) as [p|] eqn:Ep; [|discriminate].
  destruct (nth_error (ixes (init perm nd sp)) j) as [q|] eqn:Eq; [|discriminate].
  apply (f_equal (option_map fst)) in Hi, Hj. cbn [option_map] in Hi, Hj.
  injection Hi as Hix. injection Hj as Hjx.
  change (ndigit (init perm nd sp)) with nd in Hix, Hjx.
  assert (Hpb : p < (10 ^ nd) ^ 2)
    by (apply (ixes_bound perm nd sp p Hperm); eapply nth_error_In; exact Ep).
  assert (Hqb : q < (10 ^ nd) ^ 2)
    by (apply (ixes_bound perm nd sp q Hperm); eapply nth_error_In; exact Eq).
  destruct (item_parts nd p Hnd Hpb) as (Hp2 & Hpa & Hpb' & _).
  destruct (item_parts nd q Hnd Hqb) as (Hq2 & Hqa & Hqb' & _).
  change (fst (item nd p)) with (removelast (dix_of nd p)) in Hp2.
  change (fst (item nd q)) with (removelast (dix_of nd q)) in Hq2.
  rewrite Hix in Hp2. rewrite Hjx, <- Hx, Hp2 in Hq2.
  apply (f_equal (fun l => (decode (firstn nd l), decode (skipn nd l)))) in Hq2.
  cbv beta in Hq2.
  rewrite (firstn_len_app _ _ _ Hpa), (skipn_len_app _ _ _ Hpa),
    (firstn_len_app _ _ _ Hqa), (skipn_len_app _ _ _ Hqa) in Hq2.
  rewrite !decode_natval, !padded_natval in Hq2. injection Hq2 as Ha Hb.
  apply Nat2Z.inj in Ha, Hb.
  assert (Hpq : p = q).
  { assert (Hpos : 10 ^ nd <> 0) by (apply Nat.pow_nonzero; lia).
    rewrite (Nat.div_mod_eq p (10 ^ nd)), (Nat.div_mod_eq q (10 ^ nd)), Ha, Hb. reflexivity. }
  subst q. rewrite <- Eq in Ep.
  apply (proj1 (NoDup_nth_error _) (ixes_nodup perm nd sp Hperm) i j); [|exact Ep].
  apply nth_error_Some. rewrite Ep, Eq. discriminate.
Qed.

Lemma item_inputs_distinct_witness :
  permutation_ok id_perm /\ 1 <= 1 /\
  getitem (init id_perm 1 "train") 3 = Some ([2; 3; 0]%Z, [-100; 0; 5]%Z) /\ 3 = 3.
Proof.
  assert (H1 : permutation_ok id_perm) by (intros seed num; apply Permutation_refl).
  assert (E : getitem (init id_perm 1 "train") 3 = Some ([2; 3; 0]%Z, [-100; 0; 5]%Z))
    by (vm_compute; reflexivity).
  split; [exact H1|]. split; [lia|]. split; [exact E|].
  exact (item_inputs_distinct id_perm H1 1 "train" ltac:(lia) 3 3 _ _ _ _ E E eq_refl).
Defined.

(** [give_exam] on an item ([1 <= ndigit <= 8]): for the item's problem
    [p = ixes[i]], the weighted sums read the prompt [x[:2*ndigit]] back as
    [p // 10^ndigit] (the first operand [a]) and [p % 10^ndigit] (the second
    operand [b]); the row is judged correct for a sampled completion of
    [ndigit+1] digits exactly when those digits are the zero-padded digits of
    [a + b], which are also the dataset's own answer (the end of [x] followed
    by the last target). *)
Theorem exam_judges_sum (perm : nat -> nat -> list nat) (Hperm : permutation_ok perm)
  (nd : nat) (sp : string) (i : nat) (x y : list Z)
  (Hnd : 1 <= nd) (Hnd8 : nd <= 8) (Hget : getitem (init perm nd sp) i = Some (x, y)) :
  let d1d2 := firstn (nd * 2) x in
  exists p, nth_error (ixes (init perm nd sp)) i = Some p /\
    wsum (firstn nd d1d2) (tl (factors nd)) = Z.of_nat (p / 10 ^ nd) /\
    wsum (firstn (nd * 2 - nd) (skipn nd d1d2)) (tl (factors nd)) = Z.of_nat (p mod 10 ^ nd) /\
    skipn (nd * 2) x ++ [last y 0%Z] =
      map Z.of_nat (padded (nd + 1) (p / 10 ^ nd + p mod 10 ^ nd)) /\
    forall d3, List.length d3 = nd + 1 -> Forall (fun d => (0 <= d < 10)%Z) d3 ->
      (exam_correct nd d1d2 (d1d2 ++ d3) = true <->
       d3 = map Z.of_nat (padded (nd + 1) (p / 10 ^ nd + p mod 10 ^ nd))).
Proof.
  intros d1d2.
  unfold getitem in Hget.
  destruct (nth_error (ixes (init perm nd sp)) i) as [p|] eqn:Ep; [|discriminate].
  assert (Hxy : item nd p = (x, y)).
  { change (Some (item nd p) = Some (x, y)) in Hget. congruence. }
  assert (Hin : In p (ixes (init perm nd sp))) by (eapply nth_error_In; exact Ep).
  pose proof (ixes_bound perm nd sp p Hperm Hin) as Hb.
  pose proof (exam_item_judge nd p Hnd Hb) as HJ. cbv zeta in HJ.
  rewrite Hxy in HJ. cbn [fst snd] in HJ.
  destruct HJ as (_ & _ & H1 & H2 & H3 & H4).
  exists p. split; [reflexivity|]. exact (conj H1 (conj H2 (conj H3 H4))).
Qed.

Lemma exam_judges_sum_witness :
  (permutation_ok id_perm /\ 1 <= 2 /\ 2 <= 8 /\
   getitem (init id_perm 2 "train") 1047 = Some ([2; 0; 4; 7; 0; 6]%Z, [-100; -100; -100; 0; 6; 7]%Z)) /\
  exam_correct 2 [2; 0; 4; 7]%Z ([2; 0; 4; 7] ++ [0; 6; 7])%Z = true.
Proof.
  assert (H1 : permutation_ok id_perm) by (intros seed num; apply Permutation_refl).
  assert (E : getitem (init id_perm 2 "train") 1047
              = Some ([2; 0; 4; 7; 0; 6]%Z, [-100; -100; -100; 0; 6; 7]%Z))
    by (vm_compute; reflexivity).
  split; [split; [exact H1|split; [lia|split; [lia|exact E]]]|].
  destruct (exam_judges_sum id_perm H1 2 "train" 1047 _ _ ltac:(lia) ltac:(lia) E)
    as (p & _ & _ & _ & Hc & Hj).
  cbn [firstn] in Hj. apply Hj.
  - reflexivity.
  - repeat constructor; lia.
  - exact Hc.
Defined.

(** [give_exam] scores the dataset's items in index order and stops after
    10 batches of 1024: whatever its [batch_size] and [max_batches]
    arguments, its results are the scores of the first [min(len, 10240)]
    problems of the split, one per problem. *)
Theorem give_exam_first_items (samp : list Z -> list Z) (nd : nat) (ds : dataset)
  (batch_size max_batches : Z) :
  give_exam samp nd ds batch_size max_batches =
    map (fun p => exam_row samp nd (item (ndigit ds) p)) (firstn 10240 (ixes ds)) /\
  List.length (give_exam samp nd ds batch_size max_batches) = Nat.min (len ds) 10240.
Proof.
  pose proof (give_exam_eq samp nd ds batch_size max_batches) as H.
  split; [exact H|]. rewrite H, length_map, length_firstn. unfold len. lia.
Qed.

(** A sampler that completes every prompt of a split with that item's own
    answer digits (the end of [x] followed by the last target) gets a 1 on
    every row: [give_exam] then returns [min(len, 10240)] ones, a perfect
    score ([1 <= ndigit <= 8]). *)
Theorem give_exam_reference_answers (perm : nat -> nat -> list nat) (Hperm : permutation_ok perm)
  (nd : nat) (sp : string) (Hnd : 1 <= nd) (Hnd8 : nd <= 8) (samp : list Z -> list Z)
  (Hsamp : forall i x y, getitem (init perm nd sp) i = Some (x, y) ->
     samp (firstn (nd * 2) x) = firstn (nd * 2) x ++ skipn (nd * 2) x ++ [last y 0%Z])
  (batch_size max_batches : Z) :
  give_exam samp nd (init perm nd sp) batch_size max_batches =
    repeat 1 (Nat.min (len (init perm nd sp)) 10240).
Proof.
  rewrite give_exam_eq. change (ndigit (init perm nd sp)) with nd.
  replace (Nat.min (len (init perm nd sp)) 10240)
    with (List.length (firstn 10240 (ixes (init perm nd sp))))
    by (rewrite length_firstn; unfold len; lia).
  apply map_const_1. intros p Hp.
  apply (in_firstn_in 10240) in Hp. destruct (In_nth_error _ _ Hp) as [i Hi].
  pose proof (ixes_bound perm nd sp p Hperm Hp) as Hb.
  assert (Hg : getitem (init perm nd sp) i = Some (fst (item nd p), snd (item nd p)))
    by (unfold getitem; rewrite Hi; change (ndigit (init perm nd sp)) with nd;
        destruct (item nd p); reflexivity).
  specialize (Hsamp i _ _ Hg).
  destruct (exam_item_judge nd p Hnd Hb) as (Ha & Hb' & _ & _ & Hc & Hj).
  set (a := p / 10 ^ nd) in *. set (b := p mod 10 ^ nd) in *.
  unfold exam_row. rewrite Hsamp, Hc.
  assert (Hab : a + b < 10 ^ (nd + 1)) by (rewrite Nat.add_1_r, Nat.pow_succ_r'; lia).
  rewrite (proj2 (Hj _ (length_map_padded (nd + 1) (a + b) ltac:(lia) Hab)
                      (Forall_map_padded (nd + 1) (a + b))) eq_refl).
  reflexivity.
Qed.

Lemma give_exam_reference_answers_witness :
  (permutation_ok id_perm /\ 1 <= 1 /\ 1 <= 8 /\
   (forall i x y, getitem (init id_perm 1 "test") i = Some (x, y) ->
      answer_sampler 1 (firstn (1 * 2) x) = firstn (1 * 2) x ++ skipn (1 * 2) x ++ [last y 0%Z])) /\
  give_exam (answer_sampler 1) 1 (init id_perm 1 "test") 32 (-1) = repeat 1 20.
Proof.
  assert (H1 : permutation_ok id_perm) by (intros seed num; apply Permutation_refl).
  assert (Hs : forall i x y, getitem (init id_perm 1 "test") i = Some (x, y) ->
      answer_sampler 1 (firstn (1 * 2) x) = firstn (1 * 2) x ++ skipn (1 * 2) x ++ [last y 0%Z]).
  { intros i x y H.
    do 20 (destruct i as [|i]; [vm_compute in H; injection H as <- <-; vm_compute; reflexivity|]).
    vm_compute in H. destruct i; discriminate. }
  split; [split; [exact H1|split; [lia|split; [lia|exact Hs]]]|].
  exact (give_exam_reference_answers id_perm H1 1 "test" ltac:(lia) ltac:(lia) _ Hs 32 (-1)).
Defined.

End DatasetExtras.
